(** * raft-buntdb: the BuntDB-backed Raft log store and stable store

    A shallow embedding of [bunt_store.go] and of the snapshots of [util.go]
    (log codec and key codec), with the properties of the storage adapter
    stated and proved over it.

    Conventions.
    - A Go [uint64] is a [Z] in the range [0, 2^64); operations that can
      leave the range have their wrap-around written out.
    - A Go [[]byte] is a [list byte]; a Go [string] is a [string] (both are
      byte sequences); [string(b)] and [[]byte(s)] are the conversions of
      the Standard Library.
    - A Go function returning [(T, error)] returns a pair [T * option error],
      [None] being the nil error.
    - A computation that can raise a run-time panic (index or slice out of
      range) lives in [option], [None] being the panic. *)

From Stdlib Require Import ZArith Lia List Bool.
From Stdlib Require Import Strings.Byte Strings.Ascii Strings.String.
From stdpp Require Import base option list gmap strings sorting.

Local Open Scope Z_scope.

(** ** Machine integers and bytes *)

Definition uint64_modulus : Z := 2 ^ 64.
Definition maxUint64 : Z := 2 ^ 64 - 1.

Definition is_uint64 (v : Z) : Prop := 0 <= v < uint64_modulus.

Definition wrap64 (v : Z) : Z := v mod uint64_modulus.

(** [uint64(b)] for a byte [b]. *)
Definition byte_to_Z (b : byte) : Z := Z.of_N (Byte.to_N b).

(** [byte(v)] for an unsigned integer [v]: the low eight bits. *)
Definition byte_of_Z (v : Z) : byte :=
  match Byte.of_N (Z.to_N (v mod 256)) with
  | Some b => b
  | None => x00
  end.

(** [x << n] and [x >> n] on [uint64]. *)
Definition shl64 (x n : Z) : Z := wrap64 (Z.shiftl x n).
Definition shr64 (x n : Z) : Z := Z.shiftr x n.
Definition or64 (x y : Z) : Z := Z.lor x y.

(** ** Slices *)

(** [b[lo:hi]]; panics unless [lo <= hi <= len(b)]. *)
Definition slice {A} (lo hi : nat) (b : list A) : option (list A) :=
  if (lo <=? hi)%nat && (hi <=? length b)%nat
  then Some (take (hi - lo) (drop lo b))
  else None.

(** [b[lo:]]; panics unless [lo <= len(b)]. *)
Definition slice_from {A} (lo : nat) (b : list A) : option (list A) :=
  if (lo <=? length b)%nat then Some (drop lo b) else None.

(** [copy(dst, src)]: the first [min(len(dst), len(src))] elements of [src]
    overwrite the start of [dst]. *)
Definition copy {A} (dst src : list A) : list A :=
  take (length dst) src ++ drop (length src) dst.

(** [make([]byte, n)]. *)
Definition make_bytes (n : nat) : list byte := replicate n x00.

(** ** encoding/binary, little endian *)

(** The two functions of Go's standard library that [util.go] calls, after
    their source. *)

Module LittleEndian.

(** [binary.LittleEndian.PutUint64(b, v)]: the bounds check [_ = b[7]],
    then eight byte stores. *)
Definition PutUint64 (b : list byte) (v : Z) : option (list byte) :=
  if (length b <? 8)%nat then None
  else
    let b := <[0%nat := byte_of_Z v]> b in
    let b := <[1%nat := byte_of_Z (shr64 v 8)]> b in
    let b := <[2%nat := byte_of_Z (shr64 v 16)]> b in
    let b := <[3%nat := byte_of_Z (shr64 v 24)]> b in
    let b := <[4%nat := byte_of_Z (shr64 v 32)]> b in
    let b := <[5%nat := byte_of_Z (shr64 v 40)]> b in
    let b := <[6%nat := byte_of_Z (shr64 v 48)]> b in
    let b := <[7%nat := byte_of_Z (shr64 v 56)]> b in
    Some b.

(** [binary.LittleEndian.Uint64(b)]: the bounds check [_ = b[7]], then the
    eight bytes or-ed together. *)
Definition Uint64 (b : list byte) : option Z :=
  match b with
  | b0 :: b1 :: b2 :: b3 :: b4 :: b5 :: b6 :: b7 :: _ =>
      Some (or64 (or64 (or64 (or64 (or64 (or64 (or64
        (byte_to_Z b0)
        (shl64 (byte_to_Z b1) 8))
        (shl64 (byte_to_Z b2) 16))
        (shl64 (byte_to_Z b3) 24))
        (shl64 (byte_to_Z b4) 32))
        (shl64 (byte_to_Z b5) 40))
        (shl64 (byte_to_Z b6) 48))
        (shl64 (byte_to_Z b7) 56))
  | _ => None
  end.

End LittleEndian.

(** ** Errors *)

(** Go error values, compared by identity. [errors_New msg] is the value a
    call [errors.New(msg)] creates where it stands; the sentinels are the
    package-level variables of this package, of raft and of the engine. *)
Inductive error : Type :=
  | errors_New (msg : string)
  | ErrKeyNotFound
  | raft_ErrLogNotFound
  | buntdb_ErrNotFound
  | buntdb_ErrDatabaseClosed
  | buntdb_ErrTxClosed
  | engine_error (msg : string)
  | strconv_ErrSyntax
  | strconv_ErrRange.

Global Instance error_eq_dec : EqDecision error.
Proof. solve_decision. Defined.

(** ** raft.Log *)

(** [raft.LogType] is a [uint8]. *)
Record Log : Type := mkLog {
  Index : Z;
  Term : Z;
  Type_ : byte;
  Data : list byte;
}.

(** A log entry whose integer fields are 64-bit values. *)
Definition valid_log (e : Log) : Prop := is_uint64 (Index e) /\ is_uint64 (Term e).

(** The zero value of [raft.Log] ([new(raft.Log)]). *)
Definition zero_log : Log := mkLog 0 0 x00 [].

(** ** util.go: the log codec (the same in every snapshot) *)

(** [decodeLog(buf, in)]: fills [in] and returns the error. The result is the
    log [in] points to after the call, and the error. *)
Definition decodeLog (buf : list byte) (in_ : Log) : option (Log * option error) :=
  if (length buf <? 17)%nat then Some (in_, Some (errors_New "invalid buffer"))
  else
    b0 ← slice 0 8 buf;
    index ← LittleEndian.Uint64 b0;
    b8 ← slice 8 16 buf;
    term ← LittleEndian.Uint64 b8;
    ty ← buf !! 16%nat;
    data ← slice_from 17 buf;
    Some (mkLog index term ty data, None).

(** [encodeLog(in)]: a fresh buffer of [17+len(in.Data)] bytes, filled through
    the sub-slices [buf[0:8]], [buf[8:16]] and [buf[17:]], which share the
    buffer's storage. *)
Definition encodeLog (in_ : Log) : option (list byte * option error) :=
  let buf := make_bytes (17 + length (Data in_)) in
  s0 ← slice 0 8 buf;
  s0 ← LittleEndian.PutUint64 s0 (Index in_);
  let buf := s0 ++ drop 8 buf in
  s8 ← slice 8 16 buf;
  s8 ← LittleEndian.PutUint64 s8 (Term in_);
  let buf := take 8 buf ++ s8 ++ drop 16 buf in
  _ ← buf !! 16%nat;
  let buf := <[16%nat := Type_ in_]> buf in
  s17 ← slice_from 17 buf;
  let buf := take 17 buf ++ copy s17 (Data in_) in
  Some (buf, None).

(** ** Strings as byte sequences *)

(** [s[n:]] for [n <= len(s)]. *)
Fixpoint string_drop (n : nat) (s : string) : string :=
  match n, s with
  | O, _ => s
  | S n, String _ s => string_drop n s
  | S _, EmptyString => EmptyString
  end.

(** [s[lo:]]; panics unless [lo <= len(s)]. *)
Definition string_from (lo : nat) (s : string) : option string :=
  if (lo <=? String.length s)%nat then Some (string_drop lo s) else None.

(** Go's [<] and [<=] on strings: byte-wise lexicographic order. *)
Definition string_lt (s t : string) : bool := String.ltb s t.
Definition string_le (s t : string) : bool := String.leb s t.

(** [strings.HasPrefix(s, prefix)]. *)
Definition HasPrefix (s prefix : string) : bool := String.prefix prefix s.

(** ** strconv, base 10 and 64 bits *)

(** The two functions of Go's standard library that [util.go] calls, after
    their source. *)

Module strconv.

Definition digit_char (d : Z) : ascii := ascii_of_N (Z.to_N (48 + d)).

(** The digit loop of [FormatUint(u, 10)]: the digits come out lowest
    first and are written in front of what is there already; at least one
    digit is written. The fuel bounds the number of further digits. *)
Fixpoint format_loop (fuel : nat) (u : Z) (acc : string) : string :=
  let acc := String (digit_char (u mod 10)) acc in
  match fuel with
  | O => acc
  | S fuel => if u <? 10 then acc else format_loop fuel (u / 10) acc
  end.

(** [strconv.FormatUint(u, 10)]; a [uint64] has at most 20 digits. *)
Definition FormatUint (u : Z) : string := format_loop 19 u "".

(** The smallest number such that [cutoff*10 > maxUint64]. *)
Definition cutoff : Z := maxUint64 / 10 + 1.

(** The loop of [ParseUint(s, 10, 64)] over the bytes of [s], [n] being
    the number read so far. Every byte that is not a decimal digit is a
    syntax error (a letter is a digit of value 10 or more, which the base
    refuses; the underscore is accepted in base 0 only). *)
Fixpoint parse_loop (s : string) (n : Z) : Z * option error :=
  match s with
  | EmptyString => (n, None)
  | String c rest =>
      let c := Z.of_N (N_of_ascii c) in
      if (48 <=? c) && (c <=? 57) then
        let d := c - 48 in
        if cutoff <=? n then (maxUint64, Some strconv_ErrRange)
        else
          let n := wrap64 (n * 10) in
          let n1 := wrap64 (n + d) in
          if (n1 <? n) || (maxUint64 <? n1)
          then (maxUint64, Some strconv_ErrRange)
          else parse_loop rest n1
      else (0, Some strconv_ErrSyntax)
  end.

(** [strconv.ParseUint(s, 10, 64)]. *)
Definition ParseUint (s : string) : Z * option error :=
  match s with
  | EmptyString => (0, Some strconv_ErrSyntax)
  | _ => parse_loop s 0
  end.

End strconv.

(** ** util.go, decimal snapshot: keys of 20 decimal digits *)

Module DecimalKeys.

(** [stringToUint64(s)]: the error of [ParseUint] is dropped. *)
Definition stringToUint64 (s : string) : Z := fst (strconv.ParseUint s).

(** [uint64ToString(u)]: [s] starts with 20 zeros, so [len(s)-20] is a
    valid lower bound of the slice. *)
Definition uint64ToString (u : Z) : string :=
  let s := ("00000000000000000000" +:+ strconv.FormatUint u)%string in
  string_drop (String.length s - 20) s.

End DecimalKeys.

(** ** util.go, binary snapshot: keys of 8 little-endian bytes *)

Module BinaryKeys.

(** [stringToUint64(s)]; panics on a string of fewer than 8 bytes. *)
Definition stringToUint64 (s : string) : option Z :=
  LittleEndian.Uint64 (list_byte_of_string s).

(** [uint64ToString(u)]. *)
Definition uint64ToString (u : Z) : option string :=
  let buf := make_bytes 8 in
  buf ← LittleEndian.PutUint64 buf u;
  Some (string_of_list_byte buf).

End BinaryKeys.

(** ** The key-value engine *)

(** Modelled from the spec: the embedded engine (BuntDB) is an external
    collaborator whose code is not part of the repository. As the spec
    assumes, it keeps its keys in byte-wise lexicographic order, iterates
    over them in ascending or descending order until the visitor returns
    false, and runs every operation in a managed transaction that is
    committed when the body returns no error and rolled back when it returns
    one. A closed database refuses to begin a transaction. *)
Module buntdb.

(** Modelled from the spec: the engine's handle, a database that is open or
    closed and holds the keys with their values. *)
Record DB : Type := mkDB {
  db_closed : bool;
  db_keys : gmap string string;
}.

(** What the environment does to the engine: any call inside a transaction
    may fail with an engine error, and so may the write of a commit. *)
Record Faults : Type := mkFaults {
  get_fault : string -> option error;
  set_fault : string -> string -> option error;
  delete_fault : string -> option error;
  commit_fault : option error;
}.

Definition no_faults : Faults :=
  mkFaults (fun _ => None) (fun _ _ => None) (fun _ => None) None.

(** A freshly opened, empty database. *)
Definition empty_db : DB := mkDB false ∅.

(** Modelled from the spec: [db.Close()] of the engine. *)
Definition Close (db : DB) : DB * option error :=
  if db_closed db then (db, Some buntdb_ErrDatabaseClosed)
  else (mkDB true (db_keys db), None).

Section Transactions.
Context (F : Faults).

(** Modelled from the spec: [tx.Get(key)] of the engine; an absent key is
    the engine's not-found error. *)
Definition Get (tx : gmap string string) (key : string) : string * option error :=
  match get_fault F key with
  | Some e => (""%string, Some e)
  | None =>
      match tx !! key with
      | Some v => (v, None)
      | None => (""%string, Some buntdb_ErrNotFound)
      end
  end.

(** Modelled from the spec: [tx.Set(key, val, nil)] of the engine; the
    previous value and the replaced flag are not used by the store. *)
Definition Set_ (tx : gmap string string) (key val : string)
  : gmap string string * option error :=
  match set_fault F key val with
  | Some e => (tx, Some e)
  | None => (<[key := val]> tx, None)
  end.

(** Modelled from the spec: [tx.Delete(key)] of the engine; an absent key
    is the engine's not-found error; the deleted value is not used by the
    store. *)
Definition Delete (tx : gmap string string) (key : string)
  : gmap string string * option error :=
  match delete_fault F key with
  | Some e => (tx, Some e)
  | None =>
      match tx !! key with
      | Some _ => (delete key tx, None)
      | None => (tx, Some buntdb_ErrNotFound)
      end
  end.

(** Modelled from the spec: [db.View(fn)] of the engine, a managed read-only
    transaction; [fn] reads the keys and updates the variables [S] it has
    captured. *)
Definition View {S} (db : DB)
    (fn : gmap string string -> S -> option (S * option error)) (s : S)
  : option (S * option error) :=
  if db_closed db then Some (s, Some buntdb_ErrDatabaseClosed)
  else fn (db_keys db) s.

(** Modelled from the spec: [db.Update(fn)] of the engine, a managed
    read/write transaction: commit when [fn] returns nil, roll back
    otherwise; a commit that cannot be written is rolled back as well. *)
Definition Update (db : DB)
    (fn : gmap string string -> option (gmap string string * option error))
  : option (DB * option error) :=
  if db_closed db then Some (db, Some buntdb_ErrDatabaseClosed)
  else
    '(keys, err) ← fn (db_keys db);
    match err with
    | Some e => Some (db, Some e)
    | None =>
        match commit_fault F with
        | Some e => Some (db, Some e)
        | None => Some (mkDB (db_closed db) keys, None)
        end
    end.

End Transactions.

(** Modelled from the spec: the order of the engine's keys, byte-wise
    lexicographic. *)
Definition item_le (a b : string * string) : Prop := string_le a.1 b.1.

Global Instance item_le_dec : RelDecision item_le.
Proof. intros a b. unfold item_le. apply _. Defined.

(** Modelled from the spec: the items in ascending order of their keys. *)
Definition ascending (tx : gmap string string) : list (string * string) :=
  merge_sort item_le (map_to_list tx).

(** Modelled from the spec: the engine calls the visitor on the items in
    turn until it returns false. The visitor updates the variables [S] it
    has captured; it may panic. *)
Fixpoint iterate {S} (iterator : S -> string -> string -> option (S * bool))
    (items : list (string * string)) (s : S) : option S :=
  match items with
  | [] => Some s
  | (key, val) :: items =>
      '(s, continue) ← iterator s key val;
      if continue : bool then iterate iterator items s else Some s
  end.

(** Modelled from the spec: the items of the range [pivot, last],
    ascending. *)
Definition range_ge (tx : gmap string string) (pivot : string)
  : list (string * string) :=
  filter (fun kv => string_le pivot kv.1) (ascending tx).

(** Modelled from the spec: the items of the range [last, pivot),
    descending. *)
Definition range_gt_desc (tx : gmap string string) (pivot : string)
  : list (string * string) :=
  filter (fun kv => string_lt pivot kv.1) (reverse (ascending tx)).

(** Modelled from the spec: [tx.AscendGreaterOrEqual("", pivot, iterator)]
    of the engine, over the keys index. *)
Definition AscendGreaterOrEqual {S} (tx : gmap string string) (pivot : string)
    (iterator : S -> string -> string -> option (S * bool)) (s : S)
  : option (S * option error) :=
  s ← iterate iterator (range_ge tx pivot) s; Some (s, None).

(** Modelled from the spec: [tx.DescendGreaterThan("", pivot, iterator)] of
    the engine, over the keys index. *)
Definition DescendGreaterThan {S} (tx : gmap string string) (pivot : string)
    (iterator : S -> string -> string -> option (S * bool)) (s : S)
  : option (S * option error) :=
  s ← iterate iterator (range_gt_desc tx pivot) s; Some (s, None).

(** Modelled from the spec: [tx.Ascend("", iterator)] of the engine, over
    the keys index. *)
Definition Ascend {S} (tx : gmap string string)
    (iterator : S -> string -> string -> option (S * bool)) (s : S)
  : option (S * option error) :=
  s ← iterate iterator (ascending tx) s; Some (s, None).

(** Modelled from the spec: [tx.Descend("", iterator)] of the engine, over
    the keys index. *)
Definition Descend {S} (tx : gmap string string)
    (iterator : S -> string -> string -> option (S * bool)) (s : S)
  : option (S * option error) :=
  s ← iterate iterator (reverse (ascending tx)) s; Some (s, None).

End buntdb.

(** ** bunt_store.go *)

(** The store with the decimal snapshot of [util.go], the one its code is
    written for: the key buffer of [StoreLogs] has room for the 2 bytes of
    the prefix and the 20 digits of the index. *)
Module BuntStore.
Import DecimalKeys.

(** Bucket names we perform transactions in. *)
Definition dbLogs : string := "l:".
Definition dbConf : string := "c:".

(** [append(dst, s...)] *)
Definition append_string (dst : list byte) (s : string) : list byte :=
  dst ++ list_byte_of_string s.

Section Store.
Context (F : buntdb.Faults).

(** [b.Close()] *)
Definition Close (b : buntdb.DB) : buntdb.DB * option error := buntdb.Close b.

(** [b.FirstIndex()]; [snum] is the variable the visitor captures. *)
Definition FirstIndex (b : buntdb.DB) : option (Z * option error) :=
  '(snum, err) ← buntdb.View b (fun tx snum =>
      buntdb.AscendGreaterOrEqual tx dbLogs (fun _ key val =>
        snum ← string_from (String.length dbLogs) key;
        Some (snum, false)) snum) ""%string;
  if bool_decide (err ≠ None) || bool_decide (snum = ""%string)
  then Some (0, err)
  else Some (stringToUint64 snum, None).

(** [b.LastIndex()] *)
Definition LastIndex (b : buntdb.DB) : option (Z * option error) :=
  '(snum, err) ← buntdb.View b (fun tx snum =>
      buntdb.DescendGreaterThan tx dbLogs (fun _ key val =>
        snum ← string_from (String.length dbLogs) key;
        Some (snum, false)) snum) ""%string;
  if bool_decide (err ≠ None) || bool_decide (snum = ""%string)
  then Some (0, err)
  else Some (stringToUint64 snum, None).

(** [b.GetLog(idx, log)]: the log [log] points to after the call, and
    the error. *)
Definition GetLog (b : buntdb.DB) (idx : Z) (log : Log)
  : option (Log * option error) :=
  '(val, err) ← buntdb.View b (fun tx _ =>
      let '(val, verr) := buntdb.Get F tx (dbLogs +:+ uint64ToString idx) in
      Some (val, verr)) ""%string;
  match err with
  | Some e =>
      if bool_decide (e = buntdb_ErrNotFound)
      then Some (log, Some raft_ErrLogNotFound)
      else Some (log, Some e)
  | None => decodeLog (list_byte_of_string val) log
  end.

(** The body of the loop of [StoreLogs], over the remaining entries. *)
Fixpoint StoreLogs_loop (tx : gmap string string) (logs : list Log)
  : option (gmap string string * option error) :=
  match logs with
  | [] => Some (tx, None)
  | log :: logs =>
      let key := [] in
      let key := append_string key dbLogs in
      let key := append_string key (uint64ToString (Index log)) in
      '(val, err) ← encodeLog log;
      match err with
      | Some e => Some (tx, Some e)
      | None =>
          let '(tx, err) :=
            buntdb.Set_ F tx (string_of_list_byte key) (string_of_list_byte val) in
          match err with
          | Some e => Some (tx, Some e)
          | None => StoreLogs_loop tx logs
          end
      end
  end.

(** [b.StoreLogs(logs)] *)
Definition StoreLogs (b : buntdb.DB) (logs : list Log)
  : option (buntdb.DB * option error) :=
  buntdb.Update F b (fun tx => StoreLogs_loop tx logs).

(** [b.StoreLog(log)] *)
Definition StoreLog (b : buntdb.DB) (log : Log)
  : option (buntdb.DB * option error) :=
  StoreLogs b [log].

(** The loop [for i := min; i <= max; i++] of [DeleteRange], from the
    test of its condition on; [i++] wraps around at [2^64]. The loop has
    no bound of its own: [None] is the loop still running when the fuel
    is used up. *)
Fixpoint DeleteRange_loop (fuel : nat) (tx : gmap string string) (i max : Z)
  : option (gmap string string * option error) :=
  match fuel with
  | O => None
  | S fuel =>
      if i <=? max then
        let '(tx', err) := buntdb.Delete F tx (dbLogs +:+ uint64ToString i) in
        match err with
        | Some e =>
            if bool_decide (e ≠ buntdb_ErrNotFound)
            then Some (tx', Some e)
            else DeleteRange_loop fuel tx' (wrap64 (i + 1)) max
        | None => DeleteRange_loop fuel tx' (wrap64 (i + 1)) max
        end
      else Some (tx, None)
  end.

(** [b.DeleteRange(min, max)], the loop given [fuel] tests of its
    condition. *)
Definition DeleteRange (fuel : nat) (b : buntdb.DB) (min max : Z)
  : option (buntdb.DB * option error) :=
  buntdb.Update F b (fun tx => DeleteRange_loop fuel tx min max).

(** [b.Set(k, v)] *)
Definition Set_ (b : buntdb.DB) (k v : list byte) : option (buntdb.DB * option error) :=
  buntdb.Update F b (fun tx =>
    Some (buntdb.Set_ F tx (dbConf +:+ string_of_list_byte k) (string_of_list_byte v))).

(** [b.Get(k)]; [rval] is the variable the transaction body captures,
    [None] being the nil slice. *)
Definition Get (b : buntdb.DB) (k : list byte)
  : option (option (list byte) * option error) :=
  '(rval, err) ← buntdb.View b (fun tx rval =>
      let key := [] in
      let key := append_string key dbConf in
      let key := key ++ k in
      let '(val, err) := buntdb.Get F tx (string_of_list_byte key) in
      match err with
      | Some e => Some (rval, Some e)
      | None =>
          let rval := make_bytes (String.length val) in
          let rval := copy rval (list_byte_of_string val) in
          Some (Some rval, None)
      end) None;
  match err with
  | Some e =>
      if bool_decide (e = buntdb_ErrNotFound) then Some (None, Some ErrKeyNotFound)
      else
        let rval := match rval with None => Some [] | Some _ => rval end in
        Some (rval, None)
  | None =>
      let rval := match rval with None => Some [] | Some _ => rval end in
      Some (rval, None)
  end.

(** [b.SetUint64(key, val)] *)
Definition SetUint64 (b : buntdb.DB) (key : list byte) (val : Z)
  : option (buntdb.DB * option error) :=
  Set_ b key (list_byte_of_string (uint64ToString val)).

(** [b.GetUint64(key)] *)
Definition GetUint64 (b : buntdb.DB) (key : list byte) : option (Z * option error) :=
  '(val, err) ← Get b key;
  match err with
  | Some e => Some (0, Some e)
  | None =>
      let val := match val with Some v => v | None => [] end in
      Some (stringToUint64 (string_of_list_byte val), None)
  end.

(** [b.AscendLogGreaterOrEqual(pivot, iter)]. The visitor of the engine
    captures [ierr] and, through [iter], the variables [S] of the caller;
    [iter s log] is the caller's state after the call and what it returns.
    Each item is decoded into a fresh [raft.Log]. *)
Definition AscendLogGreaterOrEqual {S} (b : buntdb.DB) (pivot : Z)
    (iter : S -> Log -> S * bool) (s : S) : option (S * option error) :=
  '((s, _), err) ← buntdb.View b (fun tx st =>
      '((s, ierr), err) ←
        buntdb.AscendGreaterOrEqual tx (dbLogs +:+ uint64ToString pivot)
          (fun '(s, ierr) key val =>
             if negb (HasPrefix key dbLogs) then Some ((s, ierr), false)
             else
               '(log, err) ← decodeLog (list_byte_of_string val) zero_log;
               match err with
               | Some e => Some ((s, Some e), false)
               | None => let '(s, continue) := iter s log in Some ((s, ierr), continue)
               end) st;
      match err with
      | Some e => Some ((s, ierr), Some e)
      | None => Some ((s, ierr), ierr)
      end) (s, None);
  Some (s, err).

End Store.
End BuntStore.

(** ** The snapshot of the store with durability levels *)

(** The functions of the snapshot with durability levels that differ from
    [bunt_store.go] in what they return; its key codec is the decimal one. *)
Module LevelStore.
Import DecimalKeys.

Definition dbLogs : string := "l:".
Definition dbConf : string := "c:".

Section Store.
Context (F : buntdb.Faults).

(** [b.Get(k)]; [val] is the variable the transaction body captures,
    [None] being the nil slice. *)
Definition Get (b : buntdb.DB) (k : list byte)
  : option (option (list byte) * option error) :=
  '(val, err) ← buntdb.View b (fun tx val =>
      let '(sval, err) := buntdb.Get F tx (dbConf +:+ string_of_list_byte k) in
      match err with
      | Some e => Some (val, Some e)
      | None => Some (Some (list_byte_of_string sval), None)
      end) None;
  match err with
  | Some e =>
      if bool_decide (e = buntdb_ErrNotFound) then Some (None, Some ErrKeyNotFound)
      else Some (None, Some e)
  | None => Some (val, None)
  end.

(** [b.GetUint64(key)] *)
Definition GetUint64 (b : buntdb.DB) (key : list byte) : option (Z * option error) :=
  '(val, err) ← Get b key;
  match err with
  | Some e => Some (0, Some e)
  | None =>
      let val := match val with Some v => v | None => [] end in
      Some (strconv.ParseUint (string_of_list_byte val))
  end.

(** [b.FirstIndex()]; [num] is the variable the visitor captures. *)
Definition FirstIndex (b : buntdb.DB) : option (Z * option error) :=
  '(num, err) ← buntdb.View b (fun tx num =>
      buntdb.Ascend tx (fun num key val =>
        if HasPrefix key dbLogs then
          num ← string_from (String.length dbLogs) key;
          Some (num, false)
        else Some (num, true)) num) ""%string;
  if bool_decide (err ≠ None) || bool_decide (num = ""%string)
  then Some (0, err)
  else Some (stringToUint64 num, None).

(** [b.LastIndex()] *)
Definition LastIndex (b : buntdb.DB) : option (Z * option error) :=
  '(num, err) ← buntdb.View b (fun tx num =>
      buntdb.Descend tx (fun num key val =>
        if HasPrefix key dbLogs then
          num ← string_from (String.length dbLogs) key;
          Some (num, false)
        else Some (num, true)) num) ""%string;
  if bool_decide (err ≠ None) || bool_decide (num = ""%string)
  then Some (0, err)
  else Some (stringToUint64 num, None).

(** [b.Set(k, v)] *)
Definition Set_ (b : buntdb.DB) (k v : list byte) : option (buntdb.DB * option error) :=
  buntdb.Update F b (fun tx =>
    Some (buntdb.Set_ F tx (dbConf +:+ string_of_list_byte k) (string_of_list_byte v))).

(** [b.SetUint64(key, val)]: the value is written without padding. *)
Definition SetUint64 (b : buntdb.DB) (key : list byte) (val : Z)
  : option (buntdb.DB * option error) :=
  Set_ b key (list_byte_of_string (strconv.FormatUint val)).

End Store.
End LevelStore.

(** ** The vocabulary of the properties *)

(** The eight bytes [PutUint64] stores. *)
Definition le_bytes (v : Z) : list byte :=
  [byte_of_Z v; byte_of_Z (shr64 v 8); byte_of_Z (shr64 v 16);
   byte_of_Z (shr64 v 24); byte_of_Z (shr64 v 32); byte_of_Z (shr64 v 40);
   byte_of_Z (shr64 v 48); byte_of_Z (shr64 v 56)].

(** [n] decimal digits of [u], highest first, written in front of [acc]. *)
Fixpoint digits (n : nat) (u : Z) (acc : string) : string :=
  match n with
  | O => acc
  | S n => digits n (u / 10) (String (strconv.digit_char (u mod 10)) acc)
  end.

(** [n] zeros. *)
Fixpoint zeros (n : nat) : string :=
  match n with
  | O => EmptyString
  | S n => String "0"%char (zeros n)
  end.

(** The key [StoreLogs], [GetLog] and [DeleteRange] use for index [i]. *)
Definition log_key (i : Z) : string :=
  (BuntStore.dbLogs +:+ DecimalKeys.uint64ToString i)%string.

(** The key [Set] and [Get] use for the metadata key [k]. *)
Definition conf_key (k : list byte) : string :=
  (BuntStore.dbConf +:+ string_of_list_byte k)%string.

(** Index [i] has an entry in the log namespace. *)
Definition has_log (b : buntdb.DB) (i : Z) : Prop :=
  is_uint64 i /\ is_Some (buntdb.db_keys b !! log_key i).

(** Every key is one the store writes: a log key or a metadata key. *)
Definition wf_keys (tx : gmap string string) : Prop :=
  forall key, is_Some (tx !! key) ->
    (exists i, is_uint64 i /\ key = log_key i) \/ (exists k, key = conf_key k).

(** The value [StoreLogs] writes for the entry [e]. *)
Definition log_val (e : Log) : string :=
  match encodeLog e with
  | Some (buf, _) => string_of_list_byte buf
  | None => EmptyString
  end.

(** The keys after every entry of [logs] has been written, in order. *)
Definition store_all (tx : gmap string string) (logs : list Log) : gmap string string :=
  foldl (fun tx e => <[log_key (Index e) := log_val e]> tx) tx logs.

(** The error of the first entry of [logs] that the engine fails to write. *)
Fixpoint first_set_fault (F : buntdb.Faults) (logs : list Log) : option error :=
  match logs with
  | [] => None
  | e :: logs =>
      match buntdb.set_fault F (log_key (Index e)) (log_val e) with
      | Some f => Some f
      | None => first_set_fault F logs
      end
  end.

(** What the index read off the first item of a scan is. *)
Definition index_of_first (items : list (string * string)) : option (Z * option error) :=
  match items with
  | [] => Some (0, None)
  | (key, _) :: _ =>
      snum ← string_from (String.length BuntStore.dbLogs) key;
      if bool_decide (snum = EmptyString) then Some (0, None)
      else Some (DecimalKeys.stringToUint64 snum, None)
  end.

(** The entries of the test suite: [testRaftLog(idx, data)]. *)
Definition testRaftLog (idx : Z) (data : string) : Log :=
  mkLog idx 0 x00 (list_byte_of_string data).

(** Every value under a log key is the encoding of an entry with the index
    of the key, and every other key is a metadata key. *)
Definition wf_store (tx : gmap string string) : Prop :=
  forall key val, tx !! key = Some val ->
    (exists e, valid_log e /\ key = log_key (Index e) /\ val = log_val e) \/
    (exists k, key = conf_key k).

(** The caller's visitor applied to the entries in turn until it returns
    false. *)
Fixpoint visit {S} (iter : S -> Log -> S * bool) (logs : list Log) (s : S) : S :=
  match logs with
  | [] => s
  | e :: logs => let '(s, continue) := iter s e in
                 if continue : bool then visit iter logs s else s
  end.

(** The entry a stored value decodes to. *)
Definition decoded (val : string) : Log :=
  match decodeLog (list_byte_of_string val) zero_log with
  | Some (log, _) => log
  | None => zero_log
  end.

(** * Properties *)

(** ** Bytes and little-endian integers *)

Lemma byte_to_Z_range (b : byte) : 0 <= byte_to_Z b < 256.
Proof.
  unfold byte_to_Z. pose proof (Byte.to_N_bounded b). lia.
Qed.

Lemma byte_to_of_Z (v : Z) : byte_to_Z (byte_of_Z v) = v mod 256.
Proof.
  unfold byte_to_Z, byte_of_Z.
  assert (Hr : 0 <= v mod 256 < 256) by (apply Z.mod_pos_bound; lia).
  destruct (Byte.of_N (Z.to_N (v mod 256))) as [b|] eqn:Hb.
  - apply Byte.to_of_N in Hb. rewrite Hb. lia.
  - apply Byte.of_N_None_iff in Hb. lia.
Qed.

Lemma byte_of_to_Z (b : byte) : byte_of_Z (byte_to_Z b) = b.
Proof.
  unfold byte_of_Z. pose proof (byte_to_Z_range b) as Hr.
  rewrite Z.mod_small by lia. unfold byte_to_Z.
  rewrite N2Z.id, Byte.of_to_N. reflexivity.
Qed.

Lemma PutUint64_spec (b : list byte) (v : Z) :
  (8 <= length b)%nat ->
  LittleEndian.PutUint64 b v = Some (le_bytes v ++ drop 8 b).
Proof.
  intros Hlen.
  do 8 (destruct b as [|? b]; [simpl in Hlen; lia|]).
  reflexivity.
Qed.

Lemma PutUint64_panics (b : list byte) (v : Z) :
  (length b < 8)%nat -> LittleEndian.PutUint64 b v = None.
Proof.
  intros Hlen. unfold LittleEndian.PutUint64.
  destruct (Nat.ltb_spec (length b) 8); [reflexivity | lia].
Qed.

Lemma or64_shl64_add (a x n : Z) :
  0 <= n -> 0 <= a < 2 ^ n -> 0 <= x -> x * 2 ^ n < uint64_modulus ->
  or64 a (shl64 x n) = a + x * 2 ^ n.
Proof.
  intros Hn Ha Hx Hlt. unfold or64, shl64, wrap64.
  rewrite Z.shiftl_mul_pow2 by lia.
  rewrite Z.mod_small by (split; [apply Z.mul_nonneg_nonneg; lia | lia]).
  rewrite <- Z.shiftl_mul_pow2 by lia.
  assert (Hland : Z.land a (Z.shiftl x n) = 0).
  { apply Z.bits_inj'. intros i Hi.
    rewrite Z.land_spec, Z.bits_0, Z.shiftl_spec by lia.
    destruct (Z.lt_ge_cases i n) as [Hlo|Hhi].
    - rewrite (Z.testbit_neg_r x) by lia. apply andb_false_r.
    - destruct (Z.eq_dec a 0) as [->|Hne]; [now rewrite Z.bits_0|].
      rewrite (Z.bits_above_log2 a i); [reflexivity | lia |].
      apply Z.log2_lt_pow2; [lia|].
      apply Z.lt_le_trans with (2 ^ n); [lia|].
      apply Z.pow_le_mono_r; lia. }
  rewrite <- Z.lxor_lor by exact Hland.
  symmetry. apply Z.add_nocarry_lxor. exact Hland.
Qed.

Lemma Uint64_le_bytes (v : Z) (rest : list byte) :
  is_uint64 v -> LittleEndian.Uint64 (le_bytes v ++ rest) = Some v.
Proof.
  unfold is_uint64, uint64_modulus. intros Hv.
  unfold le_bytes, LittleEndian.Uint64. simpl app. f_equal.
  rewrite !byte_to_of_Z. unfold shr64.
  rewrite !Z.shiftr_div_pow2 by lia.
  repeat match goal with
  | |- context [ (?q mod 256) ] =>
      let H := fresh "Hm" in
      pose proof (Z.mod_pos_bound q 256 ltac:(lia)) as H;
      let m := fresh "m" in
      let E := fresh "E" in
      remember (q mod 256) as m eqn:E
  end.
  rewrite (or64_shl64_add _ _ 8) by (unfold uint64_modulus; lia).
  rewrite (or64_shl64_add _ _ 16) by (unfold uint64_modulus; lia).
  rewrite (or64_shl64_add _ _ 24) by (unfold uint64_modulus; lia).
  rewrite (or64_shl64_add _ _ 32) by (unfold uint64_modulus; lia).
  rewrite (or64_shl64_add _ _ 40) by (unfold uint64_modulus; lia).
  rewrite (or64_shl64_add _ _ 48) by (unfold uint64_modulus; lia).
  rewrite (or64_shl64_add _ _ 56) by (unfold uint64_modulus; lia).
  subst. change (2 ^ 8) with 256 in *. 
  change (2 ^ 16) with 65536 in *. change (2 ^ 24) with 16777216 in *.
  change (2 ^ 32) with 4294967296 in *. change (2 ^ 40) with 1099511627776 in *.
  change (2 ^ 48) with 281474976710656 in *.
  change (2 ^ 56) with 72057594037927936 in *.
  change (2 ^ 64) with 18446744073709551616 in *.
  clear -Hv. Z.to_euclidean_division_equations. lia.
Qed.

(** ** The log codec *)

Lemma length_le_bytes (v : Z) : length (le_bytes v) = 8%nat.
Proof. reflexivity. Qed.

(** The layout of an encoded entry: index, term, type tag, payload. *)
Lemma encodeLog_layout (e : Log) :
  encodeLog e =
    Some (le_bytes (Index e) ++ le_bytes (Term e) ++ Type_ e :: Data e, None).
Proof.
  unfold encodeLog, make_bytes. simpl.
  unfold copy. rewrite drop_0, length_replicate.
  rewrite firstn_all, drop_ge, app_nil_r by (rewrite length_replicate; lia).
  reflexivity.
Qed.

(** [encodeLog] neither panics nor returns an error. *)
Lemma encodeLog_total (e : Log) : exists buf, encodeLog e = Some (buf, None).
Proof. eexists. apply encodeLog_layout. Qed.

Lemma encodeLog_length (e : Log) (buf : list byte) (err : option error) :
  encodeLog e = Some (buf, err) -> length buf = (17 + length (Data e))%nat.
Proof.
  rewrite encodeLog_layout. intros [= <- _]. simpl. lia.
Qed.

Lemma decodeLog_layout (index term : Z) (ty : byte) (data : list byte) (in_ : Log) :
  is_uint64 index -> is_uint64 term ->
  decodeLog (le_bytes index ++ le_bytes term ++ ty :: data) in_
  = Some (mkLog index term ty data, None).
Proof.
  intros Hi Ht. unfold decodeLog.
  assert (Hs0 : slice 0 8 (le_bytes index ++ le_bytes term ++ ty :: data)
                = Some (le_bytes index ++ [])) by reflexivity.
  assert (Hs8 : slice 8 16 (le_bytes index ++ le_bytes term ++ ty :: data)
                = Some (le_bytes term ++ [])) by reflexivity.
  assert (Hl : (length (le_bytes index ++ le_bytes term ++ ty :: data) <? 17)%nat = false)
    by reflexivity.
  rewrite Hl, Hs0, Hs8. cbn [mbind option_bind].
  rewrite (Uint64_le_bytes index []), (Uint64_le_bytes term []) by assumption.
  reflexivity.
Qed.

(** C2. For every log entry [e] with 64-bit index and term, any type tag
    and any payload (the empty one included), [encodeLog e] succeeds and
    [decodeLog] of its result succeeds and yields an entry equal to [e] field
    for field, whatever the entry it decodes into held before. *)
Theorem decodeLog_encodeLog (e in_ : Log) :
  valid_log e ->
  exists buf,
    encodeLog e = Some (buf, None) /\
    decodeLog buf in_ = Some (e, None).
Proof.
  intros [Hi Ht]. eexists. split; [apply encodeLog_layout|].
  rewrite decodeLog_layout by assumption. destruct e; reflexivity.
Qed.

Lemma decodeLog_encodeLog_witness :
  valid_log (mkLog maxUint64 0 xff []) /\
  exists buf,
    encodeLog (mkLog maxUint64 0 xff []) = Some (buf, None) /\
    decodeLog buf zero_log = Some (mkLog maxUint64 0 xff [], None).
Proof.
  split.
  - unfold valid_log, is_uint64, uint64_modulus, maxUint64; simpl; lia.
  - apply (decodeLog_encodeLog (mkLog maxUint64 0 xff []) zero_log).
    unfold valid_log, is_uint64, uint64_modulus, maxUint64; simpl; lia.
Defined.

Lemma Uint64_total (b : list byte) :
  (8 <= length b)%nat -> exists v, LittleEndian.Uint64 b = Some v.
Proof.
  intros Hlen.
  do 8 (destruct b as [|? b]; [simpl in Hlen; lia|]).
  eexists. reflexivity.
Qed.

(** C7. [decodeLog] never panics; it returns the invalid-buffer error
    exactly when the input has fewer than 17 bytes, and no error exactly when
    it has at least 17; in that case the type tag of the result is the byte
    at offset 16, whatever its value, and the payload is the rest of the
    input. *)
Theorem decodeLog_error_iff_short (buf : list byte) (in_ : Log) :
  exists log err,
    decodeLog buf in_ = Some (log, err) /\
    (err = Some (errors_New "invalid buffer") <-> (length buf < 17)%nat) /\
    (err = None <-> (17 <= length buf)%nat) /\
    (err = None -> buf !! 16%nat = Some (Type_ log) /\ Data log = drop 17 buf).
Proof.
  unfold decodeLog. destruct (Nat.ltb_spec (length buf) 17) as [Hlt|Hge].
  - exists in_, (Some (errors_New "invalid buffer")).
    repeat split; try done; try lia.
  - assert (Hs0 : slice 0 8 buf = Some (take 8 buf)).
    { unfold slice. destruct (Nat.leb_spec 8 (length buf)); [reflexivity | lia]. }
    assert (Hs8 : slice 8 16 buf = Some (take 8 (drop 8 buf))).
    { unfold slice. destruct (Nat.leb_spec 16 (length buf)); [reflexivity | lia]. }
    assert (Hs17 : slice_from 17 buf = Some (drop 17 buf)).
    { unfold slice_from. destruct (Nat.leb_spec 17 (length buf)); [reflexivity | lia]. }
    destruct (Uint64_total (take 8 buf)) as [index Hindex].
    { rewrite length_take. lia. }
    destruct (Uint64_total (take 8 (drop 8 buf))) as [term Hterm].
    { rewrite length_take, length_drop. lia. }
    destruct (lookup_lt_is_Some_2 buf 16%nat ltac:(lia)) as [ty Hty].
    rewrite Hs0, Hs8, Hs17. cbn [mbind option_bind].
    rewrite Hindex, Hterm, Hty. cbn [mbind option_bind].
    exists (mkLog index term ty (drop 17 buf)), None.
    repeat split; try done; try lia.
Qed.

(** ** The decimal key codec *)

Lemma digits_length (n : nat) (u : Z) (acc : string) :
  String.length (digits n u acc) = (n + String.length acc)%nat.
Proof.
  revert u acc. induction n as [|n IH]; intros u acc; simpl; [reflexivity|].
  rewrite IH. simpl. lia.
Qed.

Lemma append_cons (c : ascii) (s t : string) :
  (String c s +:+ t)%string = String c (s +:+ t)%string.
Proof. reflexivity. Qed.

Lemma append_nil (t : string) : (EmptyString +:+ t)%string = t.
Proof. reflexivity. Qed.

Lemma zeros_shift (n : nat) (s : string) :
  (zeros n +:+ String "0" s)%string = String "0"%char (zeros n +:+ s)%string.
Proof.
  induction n as [|n IH]; cbn [zeros]; [reflexivity|].
  rewrite !append_cons. f_equal. exact IH.
Qed.

Lemma digits_zero (n : nat) (acc : string) : digits n 0 acc = (zeros n +:+ acc)%string.
Proof.
  revert acc. induction n as [|n IH]; intros acc; [reflexivity|].
  cbn [digits]. change (0 / 10) with 0.
  change (strconv.digit_char (0 mod 10)) with "0"%char.
  rewrite IH. apply zeros_shift.
Qed.

(** Digits beyond the length of the number are zeros. *)
Lemma digits_pad (k m : nat) (u : Z) (acc : string) :
  0 <= u < 10 ^ Z.of_nat k ->
  digits (k + m) u acc = (zeros m +:+ digits k u acc)%string.
Proof.
  revert u acc. induction k as [|k IH]; intros u acc Hu.
  - simpl in Hu. assert (u = 0) as -> by lia. simpl. apply digits_zero.
  - simpl. apply IH. rewrite Nat2Z.inj_succ, Z.pow_succ_r in Hu by lia.
    split; [apply Z.div_pos; lia | apply Z.div_lt_upper_bound; lia].
Qed.

(** The loop of [FormatUint] writes the digits of the number and stops at
    its highest digit. *)
Lemma format_loop_digits (fuel : nat) (u : Z) (acc : string) :
  0 <= u < 10 ^ Z.of_nat (S fuel) ->
  exists k, (1 <= k <= S fuel)%nat /\ u < 10 ^ Z.of_nat k /\
            strconv.format_loop fuel u acc = digits k u acc.
Proof.
  revert u acc. induction fuel as [|fuel IH]; intros u acc Hu.
  - exists 1%nat. change (Z.of_nat 1) with 1 in *.
    repeat split; lia || reflexivity.
  - cbn [strconv.format_loop]. destruct (Z.ltb_spec u 10) as [Hlt|Hge].
    + exists 1%nat. change (Z.of_nat 1) with 1.
      repeat split; lia || reflexivity.
    + destruct (IH (u / 10) (String (strconv.digit_char (u mod 10)) acc)) as (k & Hk & Hlt & Heq).
      { rewrite Nat2Z.inj_succ, Z.pow_succ_r in Hu by lia.
        split; [apply Z.div_pos; lia | apply Z.div_lt_upper_bound; lia]. }
      exists (S k). repeat split; try lia.
      * rewrite Nat2Z.inj_succ, Z.pow_succ_r by lia.
        pose proof (Z.div_mod u 10 ltac:(lia)). pose proof (Z.mod_pos_bound u 10 ltac:(lia)).
        lia.
      * rewrite Heq. reflexivity.
Qed.

Lemma string_drop_zeros (k m : nat) (s : string) :
  (k <= m)%nat -> string_drop k (zeros m +:+ s) = (zeros (m - k) +:+ s)%string.
Proof.
  revert m. induction k as [|k IH]; intros m Hk.
  - simpl. now rewrite Nat.sub_0_r.
  - destruct m as [|m]; [lia|]. cbn [zeros]. rewrite append_cons.
    cbn [string_drop]. rewrite IH by lia. reflexivity.
Qed.

Lemma string_length_app (s t : string) :
  String.length (s +:+ t) = (String.length s + String.length t)%nat.
Proof.
  induction s as [|c s IH]; [reflexivity|].
  rewrite append_cons. cbn [String.length]. now rewrite IH.
Qed.

Lemma pow10_20_bound (u : Z) : is_uint64 u -> 0 <= u < 10 ^ 20.
Proof. unfold is_uint64, uint64_modulus. lia. Qed.

(** The key suffix of an index is its 20 decimal digits. *)
Lemma uint64ToString_digits (u : Z) :
  is_uint64 u -> DecimalKeys.uint64ToString u = digits 20 u "".
Proof.
  intros Hu. apply pow10_20_bound in Hu.
  unfold DecimalKeys.uint64ToString, strconv.FormatUint.
  destruct (format_loop_digits 19 u "" Hu) as (k & Hk & Hlt & ->).
  change "00000000000000000000"%string with (zeros 20).
  rewrite string_length_app, digits_length. simpl String.length.
  replace (20 + (k + 0) - 20)%nat with k by lia.
  rewrite string_drop_zeros by lia.
  replace 20%nat with (k + (20 - k))%nat at 2 by lia.
  symmetry. apply digits_pad. lia.
Qed.

Lemma uint64ToString_length (u : Z) :
  is_uint64 u -> String.length (DecimalKeys.uint64ToString u) = 20%nat.
Proof. intros Hu. rewrite uint64ToString_digits by exact Hu. apply digits_length. Qed.

Lemma digit_char_code (d : Z) :
  0 <= d < 10 -> N_of_ascii (strconv.digit_char d) = Z.to_N (48 + d).
Proof. intros Hd. unfold strconv.digit_char. apply N_ascii_embedding. lia. Qed.

Lemma digit_char_compare (c d : Z) :
  0 <= c < 10 -> 0 <= d < 10 ->
  Ascii.compare (strconv.digit_char c) (strconv.digit_char d) = (c ?= d).
Proof.
  intros Hc Hd. unfold Ascii.compare. rewrite !digit_char_code by assumption.
  rewrite (Z2N.inj_compare (48 + c) (48 + d)) by lia.
  apply Z.add_compare_mono_l.
Qed.

Lemma mod_pow10_succ (u : Z) (n : nat) :
  u mod 10 ^ Z.of_nat (S n) = 10 * ((u / 10) mod 10 ^ Z.of_nat n) + u mod 10.
Proof.
  rewrite Nat2Z.inj_succ, Z.pow_succ_r by lia.
  rewrite Z.rem_mul_r by lia. lia.
Qed.

Lemma compare_lex10 (x y c d : Z) :
  0 <= c < 10 -> 0 <= d < 10 ->
  (10 * x + c ?= 10 * y + d) = match x ?= y with Eq => c ?= d | r => r end.
Proof.
  intros Hc Hd.
  destruct (Z.compare_spec x y) as [Hxy|Hxy|Hxy].
  - subst y. apply Z.add_compare_mono_l.
  - apply Z.compare_lt_iff. lia.
  - apply Z.compare_gt_iff. lia.
Qed.

(** Comparing two strings of digits of the same width is comparing the
    numbers they denote, then what follows them. *)
Lemma digits_compare (n : nat) (i j : Z) (a b : string) :
  String.compare (digits n i a) (digits n j b) =
    match i mod 10 ^ Z.of_nat n ?= j mod 10 ^ Z.of_nat n with
    | Eq => String.compare a b
    | c => c
    end.
Proof.
  revert i j a b. induction n as [|n IH]; intros i j a b.
  - simpl. rewrite !Z.mod_1_r. reflexivity.
  - cbn [digits]. rewrite IH. rewrite !mod_pow10_succ.
    pose proof (Z.mod_pos_bound i 10 ltac:(lia)) as Hi.
    pose proof (Z.mod_pos_bound j 10 ltac:(lia)) as Hj.
    cbn [String.compare]. rewrite digit_char_compare by assumption.
    rewrite compare_lex10 by assumption.
    destruct ((i / 10) mod 10 ^ Z.of_nat n ?= (j / 10) mod 10 ^ Z.of_nat n);
      destruct (i mod 10 ?= j mod 10); reflexivity.
Qed.

(** Byte-wise comparison of two decimal keys is the comparison of the
    indices. *)
Lemma uint64ToString_compare (i j : Z) :
  is_uint64 i -> is_uint64 j ->
  String.compare (DecimalKeys.uint64ToString i) (DecimalKeys.uint64ToString j) = (i ?= j).
Proof.
  intros Hi Hj. rewrite !uint64ToString_digits by assumption.
  rewrite digits_compare.
  apply pow10_20_bound in Hi, Hj.
  rewrite !Z.mod_small by (simpl Z.of_nat; lia).
  destruct (i ?= j); reflexivity.
Qed.

(** The decimal snapshot keeps the order of the indices. *)
Lemma decimal_uint64ToString_lt (i j : Z) :
  is_uint64 i -> is_uint64 j -> i < j ->
  string_lt (DecimalKeys.uint64ToString i) (DecimalKeys.uint64ToString j) = true.
Proof.
  intros Hi Hj Hlt. unfold string_lt, String.ltb.
  rewrite uint64ToString_compare by assumption.
  apply Z.compare_lt_iff in Hlt. now rewrite Hlt.
Qed.

Lemma uint64ToString_inj (i j : Z) :
  is_uint64 i -> is_uint64 j ->
  DecimalKeys.uint64ToString i = DecimalKeys.uint64ToString j -> i = j.
Proof.
  intros Hi Hj Heq. apply Z.compare_eq.
  rewrite <- uint64ToString_compare by assumption. rewrite Heq.
  clear. induction (DecimalKeys.uint64ToString j) as [|c s IH]; simpl; [reflexivity|].
  unfold Ascii.compare. rewrite N.compare_refl. exact IH.
Qed.

Lemma digit_char_value (d : Z) :
  0 <= d < 10 -> Z.of_N (N_of_ascii (strconv.digit_char d)) = 48 + d.
Proof. intros Hd. rewrite digit_char_code by exact Hd. lia. Qed.

(** [ParseUint] reads a string of digits as the number it denotes, as long
    as that number fits in 64 bits. *)
Lemma parse_loop_digits (n : nat) (u m : Z) (acc : string) :
  0 <= u -> 0 <= m ->
  m * 10 ^ Z.of_nat n + u mod 10 ^ Z.of_nat n <= maxUint64 ->
  strconv.parse_loop (digits n u acc) m =
    strconv.parse_loop acc (m * 10 ^ Z.of_nat n + u mod 10 ^ Z.of_nat n).
Proof.
  revert u m acc. induction n as [|n IH]; intros u m acc Hu Hm Hle.
  - simpl. rewrite Z.mod_1_r. f_equal. lia.
  - cbn [digits].
    pose proof (Z.mod_pos_bound u 10 ltac:(lia)) as Hd.
    pose proof (Z.mod_pos_bound (u / 10) (10 ^ Z.of_nat n) ltac:(lia)) as Hq.
    rewrite mod_pow10_succ in Hle |- *.
    rewrite Nat2Z.inj_succ, Z.pow_succ_r in Hle |- * by lia.
    set (p := 10 ^ Z.of_nat n) in *.
    assert (Hp : 0 < p) by (subst p; lia).
    assert (Hmp : 0 <= m * p) by (apply Z.mul_nonneg_nonneg; lia).
    rewrite IH; [| apply Z.div_pos; lia | lia | fold p; lia].
    fold p. set (M := m * p + (u / 10) mod p) in *.
    assert (HM : 0 <= M /\ 10 * M + u mod 10 <= maxUint64) by (subst M; lia).
    cbn [strconv.parse_loop]. rewrite digit_char_value by exact Hd.
    unfold maxUint64, strconv.cutoff, wrap64, uint64_modulus, maxUint64 in *.
    change ((2 ^ 64 - 1) / 10 + 1) with 1844674407370955162.
    change (2 ^ 64) with 18446744073709551616 in *.
    destruct (Z.leb_spec 48 (48 + u mod 10)); [|lia].
    destruct (Z.leb_spec (48 + u mod 10) 57); [|lia].
    cbn [andb].
    destruct (Z.leb_spec 1844674407370955162 M); [lia|].
    replace (48 + u mod 10 - 48) with (u mod 10) by lia.
    rewrite (Z.mod_small (M * 10)) by lia.
    rewrite (Z.mod_small (M * 10 + u mod 10)) by lia.
    destruct (Z.ltb_spec (M * 10 + u mod 10) (M * 10)); [lia|].
    destruct (Z.ltb_spec (18446744073709551616 - 1) (M * 10 + u mod 10)); [lia|].
    cbn [orb]. f_equal. lia.
Qed.

(** Parsing the key suffix of an index gives the index back, without error. *)
Lemma ParseUint_uint64ToString (u : Z) :
  is_uint64 u -> strconv.ParseUint (DecimalKeys.uint64ToString u) = (u, None).
Proof.
  intros Hu. pose proof (uint64ToString_length u Hu) as Hlen.
  unfold strconv.ParseUint.
  destruct (DecimalKeys.uint64ToString u) as [|c s] eqn:Hs; [discriminate|].
  rewrite <- Hs, uint64ToString_digits by exact Hu.
  pose proof (pow10_20_bound u Hu) as Hb.
  unfold is_uint64, uint64_modulus in Hu.
  rewrite parse_loop_digits.
  - cbn [strconv.parse_loop]. f_equal. simpl Z.of_nat. rewrite Z.mod_small; lia.
  - lia.
  - lia.
  - simpl Z.of_nat. rewrite Z.mod_small by lia. unfold maxUint64. lia.
Qed.

Lemma stringToUint64_uint64ToString (u : Z) :
  is_uint64 u -> DecimalKeys.stringToUint64 (DecimalKeys.uint64ToString u) = u.
Proof.
  intros Hu. unfold DecimalKeys.stringToUint64.
  now rewrite ParseUint_uint64ToString.
Qed.

(** ** The binary key codec *)

(** C1, at the failing input: with the little-endian binary key codec the
    key of index 256 sorts strictly before the key of index 1, although
    [1 < 256]. (The decimal codec keeps the order: see
    [decimal_uint64ToString_lt].) *)
Theorem binary_uint64ToString_order_broken :
  exists k1 k256,
    BinaryKeys.uint64ToString 1 = Some k1 /\
    BinaryKeys.uint64ToString 256 = Some k256 /\
    string_lt k256 k1 = true /\
    string_lt k1 k256 = false.
Proof. do 2 eexists. repeat split. Qed.

(** With binary keys the ascending scan from the log prefix meets the key
    of index 256 before the key of index 1. *)
Example binary_keys_scan_order :
  exists k1 k256,
    BinaryKeys.uint64ToString 1 = Some k1 /\
    BinaryKeys.uint64ToString 256 = Some k256 /\
    head (buntdb.range_ge
            (<[("l:" +:+ k256)%string := "log256"%string]>
               (<[("l:" +:+ k1)%string := "log1"%string]> ∅)) "l:")
    = Some (("l:" +:+ k256)%string, "log256"%string).
Proof. do 2 eexists. repeat split. Qed.

(** ** The order of the keys *)

Lemma string_compare_refl (s : string) : String.compare s s = Eq.
Proof.
  induction s as [|c s IH]; [reflexivity|]. cbn [String.compare].
  unfold Ascii.compare. now rewrite N.compare_refl.
Qed.

Lemma string_le_refl (s : string) : string_le s s = true.
Proof. unfold string_le, String.leb. now rewrite string_compare_refl. Qed.

Lemma string_le_trans (s t u : string) :
  string_le s t = true -> string_le t u = true -> string_le s u = true.
Proof.
  unfold string_le, String.leb. revert t u.
  induction s as [|a s IH]; intros [|b t] [|c u]; cbn [String.compare]; try done.
  unfold Ascii.compare.
  destruct (N.compare_spec (N_of_ascii a) (N_of_ascii b)) as [Hab|Hab|Hab];
    destruct (N.compare_spec (N_of_ascii b) (N_of_ascii c)) as [Hbc|Hbc|Hbc];
    destruct (N.compare_spec (N_of_ascii a) (N_of_ascii c)) as [Hac|Hac|Hac];
    try done; try lia.
  apply IH.
Qed.

Lemma string_le_total (s t : string) : string_le s t = true \/ string_le t s = true.
Proof. apply String.leb_total. Qed.

Lemma string_compare_app (p s t : string) :
  String.compare (p +:+ s) (p +:+ t) = String.compare s t.
Proof.
  induction p as [|c p IH]; [reflexivity|].
  rewrite !append_cons. cbn [String.compare].
  unfold Ascii.compare. now rewrite N.compare_refl.
Qed.

Lemma string_lt_le (s t : string) : string_lt s t = true -> string_le s t = true.
Proof. unfold string_lt, string_le, String.ltb, String.leb. now destruct (String.compare s t). Qed.

Lemma string_lt_not_le (s t : string) : string_lt s t = true -> string_le t s = false.
Proof.
  unfold string_lt, string_le, String.ltb, String.leb.
  rewrite (String.compare_antisym t s). now destruct (String.compare s t).
Qed.

Global Instance item_le_trans : Transitive buntdb.item_le.
Proof.
  intros a b c. unfold buntdb.item_le. rewrite !Is_true_true. apply string_le_trans.
Qed.

Global Instance item_le_total : Total buntdb.item_le.
Proof.
  intros a b. unfold buntdb.item_le. rewrite !Is_true_true. apply string_le_total.
Qed.

(** ** The engine's iteration *)

Lemma elem_of_ascending (tx : gmap string string) (key val : string) :
  (key, val) ∈ buntdb.ascending tx <-> tx !! key = Some val.
Proof.
  unfold buntdb.ascending. rewrite merge_sort_Permutation.
  apply elem_of_map_to_list.
Qed.

Lemma ascending_sorted (tx : gmap string string) :
  StronglySorted buntdb.item_le (buntdb.ascending tx).
Proof. apply StronglySorted_merge_sort; apply _. Qed.

Lemma StronglySorted_reverse {A} (R : relation A) (l : list A) :
  StronglySorted R l -> StronglySorted (flip R) (reverse l).
Proof.
  induction 1 as [|x l Hl IH Hx]; [constructor|].
  rewrite reverse_cons. apply StronglySorted_app_2.
  - intros y z Hy Hz. apply list_elem_of_singleton in Hz as ->.
    rewrite elem_of_reverse in Hy. unfold flip.
    rewrite Forall_forall in Hx. now apply Hx.
  - exact IH.
  - repeat constructor.
Qed.

(** The first item that a filter keeps of a sorted list comes before every
    item it keeps. *)
Lemma filter_sorted_head {A} (R : relation A) `{!Reflexive R}
    (P : A -> Prop) `{!forall x, Decision (P x)} (l : list A) (x : A) (rest : list A) :
  StronglySorted R l -> filter P l = x :: rest ->
  x ∈ l /\ P x /\ forall y, y ∈ l -> P y -> R x y.
Proof.
  induction 1 as [|z l Hl IH Hz]; [done|].
  rewrite filter_cons. destruct (decide (P z)) as [HP|HP].
  - intros [= -> <-]. split; [left|]. split; [exact HP|].
    intros y Hy _. apply elem_of_cons in Hy as [->|Hy]; [reflexivity|].
    rewrite Forall_forall in Hz. now apply Hz.
  - intros Hf. destruct (IH Hf) as (Hin & HPx & Hmin).
    split; [now right|]. split; [exact HPx|].
    intros y Hy HPy. apply elem_of_cons in Hy as [->|Hy]; [done|]. now apply Hmin.
Qed.

Lemma filter_nil_iff {A} (P : A -> Prop) `{!forall x, Decision (P x)} (l : list A) :
  filter P l = [] <-> forall y, y ∈ l -> ~ P y.
Proof.
  split.
  - intros Hf y Hy HP.
    assert (Hin : y ∈ filter P l) by (apply list_elem_of_filter; done).
    rewrite Hf in Hin. by apply not_elem_of_nil in Hin.
  - intros Hno. destruct (filter P l) as [|x rest] eqn:Hf; [done|].
    assert (Hin : x ∈ filter P l) by (rewrite Hf; left).
    apply list_elem_of_filter in Hin as [HP Hin]. by destruct (Hno x Hin).
Qed.

(** A visitor that stops at the first item sees the first item only. *)
Lemma iterate_first {S} (f : S -> string -> string -> option S)
    (items : list (string * string)) (s : S) :
  buntdb.iterate (fun s key val => s ← f s key val; Some (s, false)) items s =
    match items with
    | [] => Some s
    | (key, val) :: _ => f s key val
    end.
Proof.
  destruct items as [|[key val] items]; [reflexivity|].
  cbn [buntdb.iterate]. destruct (f s key val); reflexivity.
Qed.

(** ** The two key namespaces *)

Lemma string_of_list_byte_app (a b : list byte) :
  string_of_list_byte (a ++ b) = (string_of_list_byte a +:+ string_of_list_byte b)%string.
Proof.
  induction a as [|x a IH]; [reflexivity|].
  change (string_of_list_byte ((x :: a) ++ b))
    with (String (ascii_of_byte x) (string_of_list_byte (a ++ b))).
  change (string_of_list_byte (x :: a))
    with (String (ascii_of_byte x) (string_of_list_byte a)).
  rewrite append_cons, IH. reflexivity.
Qed.

Lemma length_list_byte_of_string (s : string) :
  length (list_byte_of_string s) = String.length s.
Proof.
  unfold list_byte_of_string. rewrite length_map.
  induction s as [|c s IH]; simpl; [reflexivity | now rewrite IH].
Qed.

Lemma log_key_bytes (i : Z) :
  string_of_list_byte
    (BuntStore.append_string (BuntStore.append_string [] BuntStore.dbLogs)
       (DecimalKeys.uint64ToString i)) = log_key i.
Proof.
  unfold BuntStore.append_string. rewrite app_nil_l, string_of_list_byte_app.
  rewrite !string_of_list_byte_of_string. reflexivity.
Qed.

Lemma conf_key_bytes (k : list byte) :
  string_of_list_byte (BuntStore.append_string [] BuntStore.dbConf ++ k) = conf_key k.
Proof.
  unfold BuntStore.append_string. rewrite app_nil_l, string_of_list_byte_app.
  rewrite string_of_list_byte_of_string. reflexivity.
Qed.

Lemma log_key_conf_key (i : Z) (k : list byte) : log_key i <> conf_key k.
Proof. unfold log_key, conf_key. discriminate. Qed.

Lemma log_key_inj (i j : Z) :
  is_uint64 i -> is_uint64 j -> log_key i = log_key j -> i = j.
Proof.
  intros Hi Hj Heq. apply uint64ToString_inj; [assumption..|].
  unfold log_key in Heq. now injection Heq.
Qed.

Lemma log_key_compare (i j : Z) :
  is_uint64 i -> is_uint64 j -> String.compare (log_key i) (log_key j) = (i ?= j).
Proof.
  intros Hi Hj. unfold log_key. rewrite string_compare_app.
  now apply uint64ToString_compare.
Qed.

Lemma log_key_suffix (i : Z) :
  is_uint64 i ->
  string_from (String.length BuntStore.dbLogs) (log_key i)
  = Some (DecimalKeys.uint64ToString i).
Proof.
  intros Hi. unfold string_from, log_key.
  rewrite string_length_app, uint64ToString_length by exact Hi. reflexivity.
Qed.

Lemma conf_key_before_logs (k : list byte) :
  string_le BuntStore.dbLogs (conf_key k) = false.
Proof. reflexivity. Qed.

Lemma log_key_after_prefix (i : Z) :
  is_uint64 i -> string_lt BuntStore.dbLogs (log_key i) = true.
Proof.
  intros Hi. pose proof (uint64ToString_length i Hi) as Hlen.
  unfold log_key. destruct (DecimalKeys.uint64ToString i); [discriminate | reflexivity].
Qed.


(** ** StoreLogs *)

Lemma first_set_fault_app (F : buntdb.Faults) (pre post : list Log) (e : Log) (f : error) :
  first_set_fault F pre = None ->
  buntdb.set_fault F (log_key (Index e)) (log_val e) = Some f ->
  first_set_fault F (pre ++ e :: post) = Some f.
Proof.
  induction pre as [|e' pre IH]; intros Hpre He; simpl.
  - now rewrite He.
  - simpl in Hpre.
    destruct (buntdb.set_fault F (log_key (Index e')) (log_val e')); [discriminate|].
    now apply IH.
Qed.

(** The loop of [StoreLogs] does not panic; it stops at the first write that
    fails and returns its error, and otherwise writes every entry. *)
Lemma StoreLogs_loop_spec (F : buntdb.Faults) (logs : list Log) (tx : gmap string string) :
  exists tx',
    BuntStore.StoreLogs_loop F tx logs = Some (tx', first_set_fault F logs) /\
    (first_set_fault F logs = None -> tx' = store_all tx logs).
Proof.
  revert tx. induction logs as [|e logs IH]; intros tx.
  - exists tx. split; reflexivity.
  - cbn [BuntStore.StoreLogs_loop first_set_fault store_all foldl].
    rewrite log_key_bytes. unfold log_val. rewrite encodeLog_layout.
    cbn [mbind option_bind]. unfold buntdb.Set_.
    destruct (buntdb.set_fault F _ _) as [f|].
    + exists tx. split; [reflexivity | discriminate].
    + apply IH.
Qed.

(** What [StoreLogs] returns and leaves behind, case by case. *)
Lemma StoreLogs_eval (F : buntdb.Faults) (b : buntdb.DB) (logs : list Log) :
  BuntStore.StoreLogs F b logs =
    if buntdb.db_closed b then Some (b, Some buntdb_ErrDatabaseClosed)
    else match first_set_fault F logs with
         | Some f => Some (b, Some f)
         | None =>
             match buntdb.commit_fault F with
             | Some f => Some (b, Some f)
             | None => Some (buntdb.mkDB false (store_all (buntdb.db_keys b) logs), None)
             end
         end.
Proof.
  unfold BuntStore.StoreLogs, buntdb.Update.
  destruct (buntdb.db_closed b) eqn:Hc; [reflexivity|].
  destruct (StoreLogs_loop_spec F logs (buntdb.db_keys b)) as (tx' & -> & Htx).
  cbn [mbind option_bind].
  destruct (first_set_fault F logs); [reflexivity|].
  rewrite (Htx eq_refl). reflexivity.
Qed.

Lemma store_all_lookup_other (logs : list Log) (tx : gmap string string) (key : string) :
  (forall e, e ∈ logs -> key <> log_key (Index e)) ->
  store_all tx logs !! key = tx !! key.
Proof.
  revert tx. induction logs as [|e logs IH]; intros tx Hne; [reflexivity|].
  cbn [store_all foldl]. fold (store_all (<[log_key (Index e) := log_val e]> tx) logs).
  rewrite IH by (intros e' He'; apply Hne; now right).
  apply lookup_insert_ne. intros Heq. apply (Hne e); [left | now symmetry].
Qed.

Lemma store_all_lookup_mono (logs : list Log) (tx : gmap string string) (key : string) :
  is_Some (tx !! key) -> is_Some (store_all tx logs !! key).
Proof.
  revert tx. induction logs as [|e logs IH]; intros tx Hs; [exact Hs|].
  cbn [store_all foldl]. apply IH. rewrite lookup_insert_is_Some. 
  destruct (decide (log_key (Index e) = key)); auto.
Qed.

Lemma store_all_lookup_written (logs : list Log) (tx : gmap string string) (e : Log) :
  e ∈ logs -> is_Some (store_all tx logs !! log_key (Index e)).
Proof.
  revert tx. induction logs as [|e' logs IH]; intros tx Hin.
  - by apply not_elem_of_nil in Hin.
  - cbn [store_all foldl]. apply elem_of_cons in Hin as [->|Hin].
    + apply store_all_lookup_mono. rewrite lookup_insert_eq. eauto.
    + now apply IH.
Qed.

Lemma store_all_lookup_last (logs : list Log) (tx : gmap string string) (e : Log) :
  e ∈ logs \/ tx !! log_key (Index e) = Some (log_val e) ->
  (forall e', e' ∈ logs -> log_key (Index e') = log_key (Index e) -> e' = e) ->
  store_all tx logs !! log_key (Index e) = Some (log_val e).
Proof.
  revert tx. induction logs as [|e1 logs IH]; intros tx Hin Huniq.
  - destruct Hin as [Hin|Hin]; [by apply not_elem_of_nil in Hin | exact Hin].
  - cbn [store_all foldl]. apply IH.
    + destruct Hin as [Hin|Hin].
      * apply elem_of_cons in Hin as [->|Hin]; [right; apply lookup_insert_eq | now left].
      * right. destruct (decide (log_key (Index e1) = log_key (Index e))) as [Heq|Hne].
        -- rewrite (Huniq e1 (list_elem_of_here _ _) Heq). apply lookup_insert_eq.
        -- now rewrite lookup_insert_ne.
    + intros e' He'. apply Huniq. now right.
Qed.

(** C3. [StoreLogs] never panics, and it is all or nothing: when it returns
    an error, the store it leaves behind is the store it was given; when it
    returns no error, every entry of the sequence has been written, in order
    (each entry has a value under its key, and that value is its encoding
    unless another entry of the sequence has the same key). When the engine
    fails to write the K-th entry, the entries before it having been written
    without error, that error is the one returned, and the store is
    unchanged. *)
Theorem StoreLogs_all_or_nothing (F : buntdb.Faults) (b : buntdb.DB) (logs : list Log) :
  exists b' err,
    BuntStore.StoreLogs F b logs = Some (b', err) /\
    (err <> None -> b' = b) /\
    (err = None ->
       buntdb.db_keys b' = store_all (buntdb.db_keys b) logs /\
       (forall e, e ∈ logs -> is_Some (buntdb.db_keys b' !! log_key (Index e))) /\
       (forall e, e ∈ logs ->
          (forall e', e' ∈ logs -> log_key (Index e') = log_key (Index e) -> e' = e) ->
          buntdb.db_keys b' !! log_key (Index e) = Some (log_val e))) /\
    (forall pre e post f,
       logs = pre ++ e :: post ->
       buntdb.db_closed b = false ->
       first_set_fault F pre = None ->
       buntdb.set_fault F (log_key (Index e)) (log_val e) = Some f ->
       err = Some f /\ b' = b).
Proof.
  rewrite StoreLogs_eval.
  destruct (buntdb.db_closed b) eqn:Hc.
  { exists b, (Some buntdb_ErrDatabaseClosed).
    split; [reflexivity|]. split; [done|]. split; [done|].
    intros pre e post f _ Hopen. discriminate. }
  destruct (first_set_fault F logs) as [f|] eqn:Hf.
  { exists b, (Some f).
    split; [reflexivity|]. split; [done|]. split; [done|].
    intros pre e post f' -> _ Hpre He.
    rewrite (first_set_fault_app F pre post e f' Hpre He) in Hf.
    split; [congruence | reflexivity]. }
  assert (Hno : forall pre e post f',
             logs = pre ++ e :: post -> first_set_fault F pre = None ->
             buntdb.set_fault F (log_key (Index e)) (log_val e) = Some f' -> False).
  { intros pre e post f' -> Hpre He.
    rewrite (first_set_fault_app F pre post e f' Hpre He) in Hf. discriminate. }
  destruct (buntdb.commit_fault F) as [f|].
  { exists b, (Some f).
    split; [reflexivity|]. split; [done|]. split; [done|].
    intros pre e post f' Hl _ Hpre He. destruct (Hno pre e post f' Hl Hpre He). }
  eexists _, None.
  split; [reflexivity|]. split; [done|]. split.
  - intros _. split; [reflexivity|]. cbn [buntdb.db_keys]. split.
    + intros e He. now apply store_all_lookup_written.
    + intros e He Huniq. apply store_all_lookup_last; [now left | exact Huniq].
  - intros pre e post f' Hl _ Hpre He. destruct (Hno pre e post f' Hl Hpre He).
Qed.

Example StoreLogs_rolls_back :
  let F := buntdb.mkFaults (fun _ => None)
             (fun key _ => if bool_decide (key = log_key 2)
                           then Some (engine_error "disk full") else None)
             (fun _ => None) None in
  BuntStore.StoreLogs F buntdb.empty_db
    [mkLog 1 0 x00 []; mkLog 2 0 x00 []; mkLog 3 0 x00 []]
  = Some (buntdb.empty_db, Some (engine_error "disk full")).
Proof. reflexivity. Qed.

(** ** Get and GetUint64 *)

Lemma copy_fresh (val : string) :
  copy (make_bytes (String.length val)) (list_byte_of_string val)
  = list_byte_of_string val.
Proof.
  unfold copy, make_bytes.
  rewrite length_replicate, length_list_byte_of_string.
  rewrite firstn_all2 by (rewrite length_list_byte_of_string; lia).
  rewrite drop_ge by (rewrite length_replicate; lia).
  apply app_nil_r.
Qed.

(** What [Get] of [bunt_store.go] returns, case by case: every engine error
    but not-found ends in the empty value and no error. *)
Lemma BuntStore_Get_eval (F : buntdb.Faults) (b : buntdb.DB) (k : list byte) :
  BuntStore.Get F b k =
    if buntdb.db_closed b then Some (Some [], None)
    else match buntdb.Get F (buntdb.db_keys b) (conf_key k) with
         | (_, Some e) =>
             if bool_decide (e = buntdb_ErrNotFound)
             then Some (None, Some ErrKeyNotFound)
             else Some (Some [], None)
         | (val, None) => Some (Some (list_byte_of_string val), None)
         end.
Proof.
  unfold BuntStore.Get, buntdb.View.
  destruct (buntdb.db_closed b); [reflexivity|].
  rewrite conf_key_bytes.
  destruct (buntdb.Get F (buntdb.db_keys b) (conf_key k)) as [val [e|]].
  - cbn [mbind option_bind]. reflexivity.
  - cbn [mbind option_bind]. now rewrite copy_fresh.
Qed.

(** What [Get] of the snapshot with levels returns, case by case: every engine
    error but not-found is returned as it is. *)
Lemma LevelStore_Get_eval (F : buntdb.Faults) (b : buntdb.DB) (k : list byte) :
  LevelStore.Get F b k =
    if buntdb.db_closed b then Some (None, Some buntdb_ErrDatabaseClosed)
    else match buntdb.Get F (buntdb.db_keys b) (conf_key k) with
         | (_, Some e) =>
             if bool_decide (e = buntdb_ErrNotFound)
             then Some (None, Some ErrKeyNotFound)
             else Some (None, Some e)
         | (val, None) => Some (Some (list_byte_of_string val), None)
         end.
Proof.
  unfold LevelStore.Get, buntdb.View.
  destruct (buntdb.db_closed b); [reflexivity|].
  change (LevelStore.dbConf +:+ string_of_list_byte k)%string with (conf_key k).
  destruct (buntdb.Get F (buntdb.db_keys b) (conf_key k)) as [val [e|]]; reflexivity.
Qed.

(** In both snapshots an absent key is the typed not-found condition. *)
Lemma Get_absent (F : buntdb.Faults) (b : buntdb.DB) (k : list byte) :
  buntdb.db_closed b = false ->
  buntdb.get_fault F (conf_key k) = None ->
  buntdb.db_keys b !! conf_key k = None ->
  BuntStore.Get F b k = Some (None, Some ErrKeyNotFound) /\
  LevelStore.Get F b k = Some (None, Some ErrKeyNotFound).
Proof.
  intros Hc Hf Hk. rewrite BuntStore_Get_eval, LevelStore_Get_eval, Hc.
  unfold buntdb.Get. rewrite Hf, Hk. split; reflexivity.
Qed.

(** The snapshot with levels returns an engine error other than not-found
    unchanged. *)
Lemma LevelStore_Get_engine_error (F : buntdb.Faults) (b : buntdb.DB) (k : list byte) (e : error) :
  buntdb.db_closed b = false ->
  buntdb.get_fault F (conf_key k) = Some e -> e <> buntdb_ErrNotFound ->
  LevelStore.Get F b k = Some (None, Some e).
Proof.
  intros Hc Hf Hne. rewrite LevelStore_Get_eval, Hc. unfold buntdb.Get. rewrite Hf.
  now rewrite bool_decide_eq_false_2.
Qed.

(** [Get] of [bunt_store.go] turns an engine error other than not-found
    into a successful empty value. *)
Lemma BuntStore_Get_engine_error (F : buntdb.Faults) (b : buntdb.DB) (k : list byte) (e : error) :
  buntdb.db_closed b = false ->
  buntdb.get_fault F (conf_key k) = Some e -> e <> buntdb_ErrNotFound ->
  BuntStore.Get F b k = Some (Some [], None).
Proof.
  intros Hc Hf Hne. rewrite BuntStore_Get_eval, Hc. unfold buntdb.Get. rewrite Hf.
  now rewrite bool_decide_eq_false_2.
Qed.

(** C4, at the failing input: on a store that has been closed the engine
    refuses the read with its database-closed error, and [Get] of
    [bunt_store.go] returns the empty value and no error, whatever the key
    and whatever the store held; the snapshot with levels returns the
    engine's error as it is. *)
Theorem Get_swallows_engine_error
    (F : buntdb.Faults) (keys : gmap string string) (k : list byte) :
  BuntStore.Get F (BuntStore.Close (buntdb.mkDB false keys)).1 k
    = Some (Some [], None) /\
  LevelStore.Get F (BuntStore.Close (buntdb.mkDB false keys)).1 k
    = Some (None, Some buntdb_ErrDatabaseClosed).
Proof. rewrite BuntStore_Get_eval, LevelStore_Get_eval. split; reflexivity. Qed.

(** The only error [GetUint64] of [bunt_store.go] ever returns is the
    not-found condition: a value that does not parse is not reported. *)
Lemma BuntStore_GetUint64_errors (F : buntdb.Faults) (b : buntdb.DB) (k : list byte)
    (v : Z) (e : error) :
  BuntStore.GetUint64 F b k = Some (v, Some e) -> e = ErrKeyNotFound /\ v = 0.
Proof.
  unfold BuntStore.GetUint64. rewrite BuntStore_Get_eval.
  destruct (buntdb.db_closed b); [discriminate|].
  destruct (buntdb.Get F (buntdb.db_keys b) (conf_key k)) as [val [e'|]].
  - destruct (bool_decide (e' = buntdb_ErrNotFound)); cbn [mbind option_bind].
    + intros [= <- <-]. split; reflexivity.
    + discriminate.
  - discriminate.
Qed.

(** In both snapshots [GetUint64] of an absent key is the not-found
    condition. *)
Lemma GetUint64_absent (F : buntdb.Faults) (b : buntdb.DB) (k : list byte) :
  buntdb.db_closed b = false ->
  buntdb.get_fault F (conf_key k) = None ->
  buntdb.db_keys b !! conf_key k = None ->
  BuntStore.GetUint64 F b k = Some (0, Some ErrKeyNotFound) /\
  LevelStore.GetUint64 F b k = Some (0, Some ErrKeyNotFound).
Proof.
  intros Hc Hf Hk. unfold BuntStore.GetUint64, LevelStore.GetUint64.
  destruct (Get_absent F b k Hc Hf Hk) as [-> ->]. split; reflexivity.
Qed.

(** C8, at the failing input: after [Set("k", "abc")], [GetUint64("k")] of
    [bunt_store.go] returns the number 0 and no error, although "abc" is not
    the encoding of an integer; the snapshot with levels returns the syntax
    error of the parser. A value out of the 64-bit range is read as
    [2^64-1], again without error. *)
Theorem GetUint64_malformed_no_error :
  exists b b',
    BuntStore.Set_ buntdb.no_faults buntdb.empty_db
      (list_byte_of_string "k") (list_byte_of_string "abc") = Some (b, None) /\
    BuntStore.GetUint64 buntdb.no_faults b (list_byte_of_string "k") = Some (0, None) /\
    LevelStore.GetUint64 buntdb.no_faults b (list_byte_of_string "k")
      = Some (0, Some strconv_ErrSyntax) /\
    BuntStore.Set_ buntdb.no_faults buntdb.empty_db
      (list_byte_of_string "k") (list_byte_of_string "99999999999999999999")
      = Some (b', None) /\
    BuntStore.GetUint64 buntdb.no_faults b' (list_byte_of_string "k")
      = Some (maxUint64, None).
Proof. do 2 eexists. repeat split. Qed.

(** ** FirstIndex and LastIndex *)

Lemma FirstIndex_eval (b : buntdb.DB) :
  BuntStore.FirstIndex b =
    if buntdb.db_closed b then Some (0, Some buntdb_ErrDatabaseClosed)
    else index_of_first (buntdb.range_ge (buntdb.db_keys b) BuntStore.dbLogs).
Proof.
  unfold BuntStore.FirstIndex, buntdb.View, buntdb.AscendGreaterOrEqual.
  destruct (buntdb.db_closed b); [reflexivity|].
  rewrite (iterate_first (fun _ key _ => string_from (String.length BuntStore.dbLogs) key)).
  destruct (buntdb.range_ge _ _) as [|[key val] items]; [reflexivity|].
  cbn [index_of_first mbind option_bind].
  destruct (string_from _ key) as [snum|]; [|reflexivity].
  cbn [mbind option_bind orb]. rewrite bool_decide_eq_false_2 by (intros H; now apply H).
  reflexivity.
Qed.

Lemma LastIndex_eval (b : buntdb.DB) :
  BuntStore.LastIndex b =
    if buntdb.db_closed b then Some (0, Some buntdb_ErrDatabaseClosed)
    else index_of_first (buntdb.range_gt_desc (buntdb.db_keys b) BuntStore.dbLogs).
Proof.
  unfold BuntStore.LastIndex, buntdb.View, buntdb.DescendGreaterThan.
  destruct (buntdb.db_closed b); [reflexivity|].
  rewrite (iterate_first (fun _ key _ => string_from (String.length BuntStore.dbLogs) key)).
  destruct (buntdb.range_gt_desc _ _) as [|[key val] items]; [reflexivity|].
  cbn [index_of_first mbind option_bind].
  destruct (string_from _ key) as [snum|]; [|reflexivity].
  cbn [mbind option_bind orb]. rewrite bool_decide_eq_false_2 by (intros H; now apply H).
  reflexivity.
Qed.

Lemma index_of_first_log_key (i : Z) (val : string) (items : list (string * string)) :
  is_uint64 i -> index_of_first ((log_key i, val) :: items) = Some (i, None).
Proof.
  intros Hi. cbn [index_of_first]. rewrite log_key_suffix by exact Hi.
  cbn [mbind option_bind].
  rewrite bool_decide_eq_false_2.
  - now rewrite stringToUint64_uint64ToString.
  - intros Heq. pose proof (uint64ToString_length i Hi) as Hlen.
    rewrite Heq in Hlen. discriminate.
Qed.

Global Instance item_le_refl : Reflexive buntdb.item_le.
Proof. intros a. unfold buntdb.item_le. rewrite Is_true_true. apply string_le_refl. Qed.

Lemma log_key_le (i j : Z) :
  is_uint64 i -> is_uint64 j -> string_le (log_key i) (log_key j) = true -> i <= j.
Proof.
  intros Hi Hj. unfold string_le, String.leb. rewrite log_key_compare by assumption.
  destruct (Z.compare_spec i j); [lia | lia | discriminate].
Qed.

(** The ascending scan from the log prefix starts at the smallest index. *)
Lemma range_ge_first (b : buntdb.DB) :
  wf_keys (buntdb.db_keys b) ->
  match buntdb.range_ge (buntdb.db_keys b) BuntStore.dbLogs with
  | [] => forall i, ~ has_log b i
  | (key, _) :: _ =>
      exists lo, key = log_key lo /\ has_log b lo /\ forall j, has_log b j -> lo <= j
  end.
Proof.
  intros Hwf. unfold buntdb.range_ge.
  destruct (filter _ _) as [|[key val] rest] eqn:Hf.
  - intros i [Hi [v Hv]].
    rewrite filter_nil_iff in Hf.
    apply (Hf (log_key i, v)); [now apply elem_of_ascending|].
    cbn [fst]. apply Is_true_true, string_lt_le, log_key_after_prefix, Hi.
  - apply (filter_sorted_head buntdb.item_le) in Hf as (Hin & HP & Hmin);
      [|apply ascending_sorted].
    apply elem_of_ascending in Hin. cbn [fst] in HP.
    destruct (Hwf key) as [(lo & Hlo & ->)|(k & ->)]; [eauto| |].
    + exists lo. split; [reflexivity|]. split; [split; eauto|].
      intros j [Hj [v Hv]].
      apply log_key_le; [assumption..|].
      apply Is_true_true.
      apply (Hmin (log_key j, v)); [now apply elem_of_ascending|].
      cbn [fst]. apply Is_true_true, string_lt_le, log_key_after_prefix, Hj.
    + rewrite conf_key_before_logs in HP. destruct HP.
Qed.

(** The descending scan down to the log prefix starts at the largest index. *)
Lemma range_gt_desc_first (b : buntdb.DB) :
  wf_keys (buntdb.db_keys b) ->
  match buntdb.range_gt_desc (buntdb.db_keys b) BuntStore.dbLogs with
  | [] => forall i, ~ has_log b i
  | (key, _) :: _ =>
      exists hi, key = log_key hi /\ has_log b hi /\ forall j, has_log b j -> j <= hi
  end.
Proof.
  intros Hwf. unfold buntdb.range_gt_desc.
  destruct (filter _ _) as [|[key val] rest] eqn:Hf.
  - intros i [Hi [v Hv]].
    rewrite filter_nil_iff in Hf.
    apply (Hf (log_key i, v)); [now apply elem_of_reverse, elem_of_ascending|].
    cbn [fst]. apply Is_true_true, log_key_after_prefix, Hi.
  - apply (filter_sorted_head (flip buntdb.item_le)) in Hf as (Hin & HP & Hmin);
      [|apply StronglySorted_reverse, ascending_sorted].
    apply elem_of_reverse, elem_of_ascending in Hin. cbn [fst] in HP.
    destruct (Hwf key) as [(hi & Hhi & ->)|(k & ->)]; [eauto| |].
    + exists hi. split; [reflexivity|]. split; [split; eauto|].
      intros j [Hj [v Hv]].
      apply log_key_le; [assumption..|].
      apply Is_true_true.
      apply (Hmin (log_key j, v)); [now apply elem_of_reverse, elem_of_ascending|].
      cbn [fst]. apply Is_true_true, log_key_after_prefix, Hj.
    + apply Is_true_true, string_lt_le in HP.
      rewrite conf_key_before_logs in HP. discriminate.
Qed.

(** ** The store's keys are log keys and metadata keys *)

Lemma wf_keys_empty : wf_keys ∅.
Proof. intros key [v Hv]. rewrite lookup_empty in Hv. discriminate. Qed.

Lemma wf_keys_insert_log (tx : gmap string string) (i : Z) (val : string) :
  is_uint64 i -> wf_keys tx -> wf_keys (<[log_key i := val]> tx).
Proof.
  intros Hi Hwf key Hs. apply lookup_insert_is_Some in Hs as [<-|[_ Hs]]; [|now apply Hwf].
  left. eauto.
Qed.

Lemma wf_keys_insert_conf (tx : gmap string string) (k : list byte) (val : string) :
  wf_keys tx -> wf_keys (<[conf_key k := val]> tx).
Proof.
  intros Hwf key Hs. apply lookup_insert_is_Some in Hs as [<-|[_ Hs]]; [|now apply Hwf].
  right. eauto.
Qed.

Lemma wf_keys_delete (tx : gmap string string) (key : string) :
  wf_keys tx -> wf_keys (delete key tx).
Proof.
  intros Hwf key' Hs. apply lookup_delete_is_Some in Hs as [_ Hs]. now apply Hwf.
Qed.

Lemma wf_keys_store_all (logs : list Log) (tx : gmap string string) :
  Forall (fun e => is_uint64 (Index e)) logs -> wf_keys tx -> wf_keys (store_all tx logs).
Proof.
  intros Hl. revert tx. induction Hl as [|e logs He Hl IH]; intros tx Hwf; [exact Hwf|].
  cbn [store_all foldl]. apply IH. now apply wf_keys_insert_log.
Qed.

(** The invariant is kept by [StoreLogs] and by [Set]. *)
Lemma StoreLogs_wf (F : buntdb.Faults) (b b' : buntdb.DB) (logs : list Log) (err : option error) :
  Forall (fun e => is_uint64 (Index e)) logs ->
  wf_keys (buntdb.db_keys b) ->
  BuntStore.StoreLogs F b logs = Some (b', err) ->
  wf_keys (buntdb.db_keys b').
Proof.
  intros Hl Hwf. rewrite StoreLogs_eval.
  destruct (buntdb.db_closed b); [now intros [= <- _]|].
  destruct (first_set_fault F logs); [now intros [= <- _]|].
  destruct (buntdb.commit_fault F); [now intros [= <- _]|].
  intros [= <- _]. cbn [buntdb.db_keys]. now apply wf_keys_store_all.
Qed.

Lemma Set_eval (F : buntdb.Faults) (b : buntdb.DB) (k v : list byte) :
  BuntStore.Set_ F b k v =
    if buntdb.db_closed b then Some (b, Some buntdb_ErrDatabaseClosed)
    else match buntdb.set_fault F (conf_key k) (string_of_list_byte v) with
         | Some f => Some (b, Some f)
         | None =>
             match buntdb.commit_fault F with
             | Some f => Some (b, Some f)
             | None =>
                 Some (buntdb.mkDB false
                         (<[conf_key k := string_of_list_byte v]> (buntdb.db_keys b)), None)
             end
         end.
Proof.
  unfold BuntStore.Set_, buntdb.Update, buntdb.Set_.
  destruct (buntdb.db_closed b) eqn:Hc; [reflexivity|].
  change (BuntStore.dbConf +:+ string_of_list_byte k)%string with (conf_key k).
  cbn [mbind option_bind].
  destruct (buntdb.set_fault F _ _); [reflexivity|]. reflexivity.
Qed.

Lemma Set_wf (F : buntdb.Faults) (b b' : buntdb.DB) (k v : list byte) (err : option error) :
  wf_keys (buntdb.db_keys b) ->
  BuntStore.Set_ F b k v = Some (b', err) ->
  wf_keys (buntdb.db_keys b').
Proof.
  intros Hwf. rewrite Set_eval.
  destruct (buntdb.db_closed b); [now intros [= <- _]|].
  destruct (buntdb.set_fault F _ _); [now intros [= <- _]|].
  destruct (buntdb.commit_fault F); [now intros [= <- _]|].
  intros [= <- _]. cbn [buntdb.db_keys]. now apply wf_keys_insert_conf.
Qed.

(** C9. The log namespace and the metadata namespace are disjoint: a log
    key is never a metadata key, whatever the index and the metadata key;
    [StoreLogs] leaves the value under every metadata key as it was and [Set]
    leaves the value under every log key as it was; and neither the
    ascending scan of [FirstIndex] nor the descending scan of [LastIndex],
    both bounded by the log prefix, visits a metadata key. *)
Theorem namespaces_disjoint :
  (forall i k, log_key i <> conf_key k) /\
  (forall F b logs b' err k,
     BuntStore.StoreLogs F b logs = Some (b', err) ->
     buntdb.db_keys b' !! conf_key k = buntdb.db_keys b !! conf_key k) /\
  (forall F b k v b' err i,
     BuntStore.Set_ F b k v = Some (b', err) ->
     buntdb.db_keys b' !! log_key i = buntdb.db_keys b !! log_key i) /\
  (forall tx key val k,
     (key, val) ∈ buntdb.range_ge tx BuntStore.dbLogs -> key <> conf_key k) /\
  (forall tx key val k,
     (key, val) ∈ buntdb.range_gt_desc tx BuntStore.dbLogs -> key <> conf_key k).
Proof.
  split; [exact log_key_conf_key|]. split; [|split; [|split]].
  - intros F b logs b' err k. rewrite StoreLogs_eval.
    destruct (buntdb.db_closed b); [now intros [= <- _]|].
    destruct (first_set_fault F logs); [now intros [= <- _]|].
    destruct (buntdb.commit_fault F); [now intros [= <- _]|].
    intros [= <- _]. cbn [buntdb.db_keys]. apply store_all_lookup_other.
    intros e _ Heq. symmetry in Heq. now apply log_key_conf_key in Heq.
  - intros F b k v b' err i. rewrite Set_eval.
    destruct (buntdb.db_closed b); [now intros [= <- _]|].
    destruct (buntdb.set_fault F _ _); [now intros [= <- _]|].
    destruct (buntdb.commit_fault F); [now intros [= <- _]|].
    intros [= <- _]. cbn [buntdb.db_keys]. apply lookup_insert_ne.
    intros Heq. symmetry in Heq. now apply log_key_conf_key in Heq.
  - intros tx key val k Hin ->. unfold buntdb.range_ge in Hin.
    apply list_elem_of_filter in Hin as [Hle _]. cbn [fst] in Hle.
    rewrite conf_key_before_logs in Hle. exact Hle.
  - intros tx key val k Hin ->. unfold buntdb.range_gt_desc in Hin.
    apply list_elem_of_filter in Hin as [Hlt _]. cbn [fst] in Hlt.
    apply Is_true_true, string_lt_le in Hlt.
    rewrite conf_key_before_logs in Hlt. discriminate.
Qed.

(** On a store with log entries, [FirstIndex] is the smallest index present
    and [LastIndex] the largest. *)
Lemma FirstIndex_LastIndex_bounds (b : buntdb.DB) (i : Z) :
  buntdb.db_closed b = false -> wf_keys (buntdb.db_keys b) -> has_log b i ->
  exists lo hi,
    BuntStore.FirstIndex b = Some (lo, None) /\
    BuntStore.LastIndex b = Some (hi, None) /\
    has_log b lo /\ has_log b hi /\
    forall j, has_log b j -> lo <= j <= hi.
Proof.
  intros Hc Hwf Hi. rewrite FirstIndex_eval, LastIndex_eval, Hc.
  pose proof (range_ge_first b Hwf) as Hlo.
  pose proof (range_gt_desc_first b Hwf) as Hhi.
  destruct (buntdb.range_ge _ _) as [|[klo vlo] rlo]; [destruct (Hlo i Hi)|].
  destruct (buntdb.range_gt_desc _ _) as [|[khi vhi] rhi]; [destruct (Hhi i Hi)|].
  destruct Hlo as (lo & -> & Hlo & Hmin). destruct Hhi as (hi & -> & Hhi & Hmax).
  exists lo, hi.
  rewrite !index_of_first_log_key by (apply Hlo || apply Hhi).
  repeat split; try assumption; try reflexivity; try apply Hlo; try apply Hhi.
  - now apply Hmin.
  - now apply Hmax.
Qed.

(** On a store without log entries, both are 0 and there is no error. *)
Lemma FirstIndex_LastIndex_empty (b : buntdb.DB) :
  buntdb.db_closed b = false -> wf_keys (buntdb.db_keys b) ->
  (forall i, ~ has_log b i) ->
  BuntStore.FirstIndex b = Some (0, None) /\ BuntStore.LastIndex b = Some (0, None).
Proof.
  intros Hc Hwf Hno. rewrite FirstIndex_eval, LastIndex_eval, Hc.
  pose proof (range_ge_first b Hwf) as Hlo.
  pose proof (range_gt_desc_first b Hwf) as Hhi.
  destruct (buntdb.range_ge _ _) as [|[klo vlo] rlo].
  - destruct (buntdb.range_gt_desc _ _) as [|[khi vhi] rhi]; [split; reflexivity|].
    destruct Hhi as (hi & _ & Hhi & _). destruct (Hno hi Hhi).
  - destruct Hlo as (lo & _ & Hlo & _). destruct (Hno lo Hlo).
Qed.

Lemma has_log_123 (b : buntdb.DB) (v1 v2 v3 : string) (j : Z) :
  buntdb.db_keys b = <[log_key 3 := v3]> (<[log_key 2 := v2]> (<[log_key 1 := v1]> ∅)) ->
  has_log b j <-> j = 1 \/ j = 2 \/ j = 3.
Proof.
  intros Hk. unfold has_log. rewrite Hk.
  assert (H1 : is_uint64 1) by (unfold is_uint64, uint64_modulus; lia).
  assert (H2 : is_uint64 2) by (unfold is_uint64, uint64_modulus; lia).
  assert (H3 : is_uint64 3) by (unfold is_uint64, uint64_modulus; lia).
  split.
  - intros [Hj Hs].
    apply lookup_insert_is_Some in Hs as [Heq|[_ Hs]];
      [apply log_key_inj in Heq; auto|].
    apply lookup_insert_is_Some in Hs as [Heq|[_ Hs]];
      [apply log_key_inj in Heq; auto|].
    apply lookup_insert_is_Some in Hs as [Heq|[_ Hs]];
      [apply log_key_inj in Heq; auto|].
    rewrite lookup_empty in Hs. destruct Hs as [? Hs]. discriminate.
  - intros [ -> | [ -> | -> ] ]; (split; [assumption|]);
      rewrite !lookup_insert_is_Some;
      repeat first
        [ left; reflexivity
        | right; split; [intros H; apply log_key_inj in H; [lia | assumption..]|] ].
Qed.

(** C5. On a store whose keys are the store's own and that has no log
    entry, [FirstIndex] and [LastIndex] return 0 and no error; after
    [StoreLogs] of three entries with the indices 1, 2 and 3 into the empty
    store, [FirstIndex] returns 1 and [LastIndex] returns 3; and on every
    store with a log entry [FirstIndex] returns the smallest index present
    and [LastIndex] the largest. *)
Theorem FirstIndex_LastIndex_spec :
  (forall b,
     buntdb.db_closed b = false -> wf_keys (buntdb.db_keys b) ->
     (forall i, ~ has_log b i) ->
     BuntStore.FirstIndex b = Some (0, None) /\ BuntStore.LastIndex b = Some (0, None)) /\
  (forall F e1 e2 e3 b,
     Index e1 = 1 -> Index e2 = 2 -> Index e3 = 3 ->
     BuntStore.StoreLogs F buntdb.empty_db [e1; e2; e3] = Some (b, None) ->
     BuntStore.FirstIndex b = Some (1, None) /\ BuntStore.LastIndex b = Some (3, None)) /\
  (forall b i,
     buntdb.db_closed b = false -> wf_keys (buntdb.db_keys b) -> has_log b i ->
     exists lo hi,
       BuntStore.FirstIndex b = Some (lo, None) /\
       BuntStore.LastIndex b = Some (hi, None) /\
       has_log b lo /\ has_log b hi /\
       forall j, has_log b j -> lo <= j <= hi).
Proof.
  split; [exact FirstIndex_LastIndex_empty|].
  split; [|exact FirstIndex_LastIndex_bounds].
  intros F e1 e2 e3 b He1 He2 He3 Hst.
  assert (Hidx : Forall (fun e => is_uint64 (Index e)) [e1; e2; e3]).
  { repeat constructor; rewrite ?He1, ?He2, ?He3; unfold uint64_modulus; lia. }
  pose proof (StoreLogs_wf F buntdb.empty_db _ _ _ Hidx wf_keys_empty Hst) as Hwf.
  rewrite StoreLogs_eval in Hst. cbn [buntdb.db_closed buntdb.empty_db] in Hst.
  destruct (first_set_fault F [e1; e2; e3]); [discriminate|].
  destruct (buntdb.commit_fault F); [discriminate|].
  injection Hst as <-.
  set (b := buntdb.mkDB false _) in *.
  assert (Hkeys : buntdb.db_keys b =
            <[log_key 3 := log_val e3]> (<[log_key 2 := log_val e2]>
              (<[log_key 1 := log_val e1]> ∅))).
  { subst b. cbn. now rewrite He1, He2, He3. }
  pose proof (has_log_123 b _ _ _ 1 Hkeys) as H1.
  destruct (FirstIndex_LastIndex_bounds b 1 eq_refl Hwf) as (lo & hi & -> & -> & Hlo & Hhi & Hb).
  { apply H1. auto. }
  apply (has_log_123 b _ _ _ lo Hkeys) in Hlo.
  apply (has_log_123 b _ _ _ hi Hkeys) in Hhi.
  assert (lo <= 1 <= hi) by (apply Hb, (has_log_123 b _ _ _ 1 Hkeys); auto).
  assert (lo <= 3 <= hi) by (apply Hb, (has_log_123 b _ _ _ 3 Hkeys); auto).
  split; do 2 f_equal; lia.
Qed.

Lemma FirstIndex_LastIndex_spec_witness :
  exists b,
    BuntStore.StoreLogs buntdb.no_faults buntdb.empty_db
      [testRaftLog 1 "log1"; testRaftLog 2 "log2"; testRaftLog 3 "log3"]
      = Some (b, None) /\
    BuntStore.FirstIndex b = Some (1, None) /\
    BuntStore.LastIndex b = Some (3, None).
Proof.
  eexists. split; [reflexivity|].
  apply (proj1 (proj2 FirstIndex_LastIndex_spec) buntdb.no_faults
           (testRaftLog 1 "log1") (testRaftLog 2 "log2") (testRaftLog 3 "log3"));
    reflexivity.
Defined.

(** ** DeleteRange *)

Lemma Delete_cases (F : buntdb.Faults) (tx : gmap string string) (key : string) :
  match buntdb.Delete F tx key with
  | (tx', None) =>
      buntdb.delete_fault F key = None /\ is_Some (tx !! key) /\ tx' = delete key tx
  | (tx', Some e) =>
      tx' = tx /\
      (buntdb.delete_fault F key = Some e \/
       (buntdb.delete_fault F key = None /\ tx !! key = None /\ e = buntdb_ErrNotFound))
  end.
Proof.
  unfold buntdb.Delete. destruct (buntdb.delete_fault F key) as [e|]; [auto|].
  destruct (tx !! key) eqn:Hk; [eauto | auto].
Qed.

(** The loop of [DeleteRange] over the [n] indices from [i] to [max], for a
    bound below the largest 64-bit value: with more than [n] tests of its
    condition it ends; it touches no key outside the range and adds none;
    when it ends without error, every index of the range that the engine
    did not fail on is gone; the error it returns is an engine error other
    than not-found of an index of the range, and it returns one only then. *)
Lemma DeleteRange_loop_spec (F : buntdb.Faults) (max : Z) (n : nat) :
  forall (fuel : nat) (tx : gmap string string) (i : Z),
    max < maxUint64 -> 0 <= i -> i + Z.of_nat n = max + 1 -> (n < fuel)%nat ->
    exists tx' err,
      BuntStore.DeleteRange_loop F fuel tx i max = Some (tx', err) /\
      (forall key, (forall j, i <= j <= max -> key <> log_key j) -> tx' !! key = tx !! key) /\
      (forall key, tx !! key = None -> tx' !! key = None) /\
      (err = None ->
         forall j, i <= j <= max -> buntdb.delete_fault F (log_key j) = None ->
                   tx' !! log_key j = None) /\
      (forall e, err = Some e ->
         e <> buntdb_ErrNotFound /\
         exists j, i <= j <= max /\ buntdb.delete_fault F (log_key j) = Some e) /\
      (err = None <->
         forall j e, i <= j <= max -> buntdb.delete_fault F (log_key j) = Some e ->
                     e = buntdb_ErrNotFound).
Proof.
  induction n as [|n IH]; intros fuel tx i Hmax Hi Hn Hfuel.
  - destruct fuel as [|fuel]; [lia|]. cbn [BuntStore.DeleteRange_loop].
    destruct (Z.leb_spec i max); [lia|].
    exists tx, None. split; [reflexivity|].
    repeat split; try done; intros; lia.
  - destruct fuel as [|fuel]; [lia|]. cbn [BuntStore.DeleteRange_loop].
    destruct (Z.leb_spec i max); [|lia].
    change (BuntStore.dbLogs +:+ DecimalKeys.uint64ToString i)%string with (log_key i).
    assert (Hw : wrap64 (i + 1) = i + 1).
    { unfold wrap64, uint64_modulus, maxUint64 in *. apply Z.mod_small. lia. }
    rewrite Hw.
    pose proof (Delete_cases F tx (log_key i)) as Hd.
    destruct (buntdb.Delete F tx (log_key i)) as [tx1 [e|]].
    + destruct Hd as [-> Hd].
      destruct (decide (e = buntdb_ErrNotFound)) as [->|Hne].
      * rewrite bool_decide_eq_false_2 by (intros H'; now apply H').
        destruct (IH fuel tx (i + 1)) as (tx' & err & -> & Hout & Hnone & Hgone & Herr & Hok);
          [lia..|].
        exists tx', err. split; [reflexivity|].
        split; [intros key Hk; apply Hout; intros j Hj; apply Hk; lia|].
        split; [exact Hnone|].
        split; [|split; [|split]].
        -- intros Herr0 j Hj Hf. destruct (decide (j = i)) as [->|Hji].
           ++ destruct Hd as [Hd|(_ & Hk & _)]; [congruence|]. now apply Hnone.
           ++ apply Hgone; [assumption | lia | assumption].
        -- intros e He. destruct (Herr e He) as (Hne & j & Hj & Hf).
           split; [exact Hne|]. exists j. split; [lia | exact Hf].
        -- intros Herr0 j e Hj Hf. destruct (decide (j = i)) as [->|Hji].
           ++ destruct Hd as [Hd|(Hd & _)]; congruence.
           ++ apply (proj1 Hok Herr0 j e); [lia | exact Hf].
        -- intros Hall. apply Hok. intros j e Hj. apply Hall. lia.
      * rewrite bool_decide_eq_true_2 by exact Hne.
        exists tx, (Some e). split; [reflexivity|].
        destruct Hd as [Hd|(_ & _ & ->)]; [|done].
        split; [done|]. split; [done|]. split; [done|]. split; [|split].
        -- intros e' [= <-]. split; [exact Hne|]. exists i. split; [lia | exact Hd].
        -- discriminate.
        -- intros Hall. destruct Hne. apply (Hall i e); [lia | exact Hd].
    + destruct Hd as (Hf & Hs & ->).
      destruct (IH fuel (delete (log_key i) tx) (i + 1))
        as (tx' & err & -> & Hout & Hnone & Hgone & Herr & Hok); [lia..|].
      exists tx', err. split; [reflexivity|].
      split; [|split; [|split; [|split; [|split]]]].
      * intros key Hk. rewrite Hout by (intros j Hj; apply Hk; lia).
        apply lookup_delete_ne. intros Heq. apply (Hk i); [lia | now symmetry].
      * intros key Hk. apply Hnone. rewrite lookup_delete_None. auto.
      * intros Herr0 j Hj Hfj. destruct (decide (j = i)) as [->|Hji].
        -- apply Hnone. apply lookup_delete_eq.
        -- apply Hgone; [assumption | lia | assumption].
      * intros e He. destruct (Herr e He) as (Hne & j & Hj & Hfj).
        split; [exact Hne|]. exists j. split; [lia | exact Hfj].
      * intros Herr0 j e Hj Hfj. destruct (decide (j = i)) as [->|Hji]; [congruence|].
        apply (proj1 Hok Herr0 j e); [lia | exact Hfj].
      * intros Hall. apply Hok. intros j e Hj. apply Hall. lia.
Qed.

(** With the bound at the largest 64-bit value the condition [i <= max]
    holds for every [i], and [i++] wraps around: unless the engine fails,
    the loop never ends, whatever the fuel. *)
Lemma DeleteRange_loop_no_exit (fuel : nat) :
  forall (tx : gmap string string) (i : Z),
    is_uint64 i ->
    BuntStore.DeleteRange_loop buntdb.no_faults fuel tx i maxUint64 = None.
Proof.
  induction fuel as [|fuel IH]; intros tx i Hi; [reflexivity|].
  cbn [BuntStore.DeleteRange_loop].
  destruct (Z.leb_spec i maxUint64) as [_|Hgt];
    [|unfold is_uint64, uint64_modulus, maxUint64 in *; lia].
  assert (Hw : is_uint64 (wrap64 (i + 1))).
  { unfold is_uint64, wrap64, uint64_modulus. apply Z.mod_pos_bound. lia. }
  unfold buntdb.Delete. cbn [buntdb.delete_fault buntdb.no_faults].
  destruct (tx !! _); [now apply IH|].
  rewrite bool_decide_eq_false_2 by (intros H'; now apply H'). now apply IH.
Qed.

(** Below the largest 64-bit value the loop makes exactly [max - min + 1]
    iterations: one test of the condition more than that ends it, and with
    no more tests than iterations it is still running (the engine not
    failing). *)
Lemma DeleteRange_loop_iterations (n : nat) :
  forall (fuel : nat) (tx : gmap string string) (i max : Z),
    max < maxUint64 -> 0 <= i -> i + Z.of_nat n = max + 1 -> (fuel <= n)%nat ->
    BuntStore.DeleteRange_loop buntdb.no_faults fuel tx i max = None.
Proof.
  induction n as [|n IH]; intros fuel tx i max Hmax Hi Hn Hfuel.
  - destruct fuel; [reflexivity | lia].
  - destruct fuel as [|fuel]; [reflexivity|]. cbn [BuntStore.DeleteRange_loop].
    destruct (Z.leb_spec i max); [|lia].
    assert (Hw : wrap64 (i + 1) = i + 1).
    { unfold wrap64, uint64_modulus, maxUint64 in *. apply Z.mod_small. lia. }
    rewrite Hw. unfold buntdb.Delete. cbn [buntdb.delete_fault buntdb.no_faults].
    destruct (tx !! _); [apply IH; lia|].
    rewrite bool_decide_eq_false_2 by (intros H'; now apply H'). apply IH; lia.
Qed.

(** [DeleteRange] for a range that ends below the largest 64-bit value,
    given more tests of the loop condition than the range has indices: it
    returns; when it returns an error the store is unchanged, and the error
    is the engine's (database closed, a delete that failed with an error
    other than not-found, or the commit); it returns no error exactly when
    the store is open, no delete of the range fails with an error other than
    not-found and the commit succeeds, and then every index of the range the
    engine did not fail on is absent, and every other key is as it was. *)
Lemma DeleteRange_spec (F : buntdb.Faults) (fuel : nat) (b : buntdb.DB) (min max : Z) :
  0 <= min <= max -> max < maxUint64 -> (Z.to_nat (max - min + 1) < fuel)%nat ->
  exists b' err,
    BuntStore.DeleteRange F fuel b min max = Some (b', err) /\
    (err <> None -> b' = b) /\
    (err = None ->
       (forall j, min <= j <= max -> buntdb.delete_fault F (log_key j) = None ->
                  buntdb.db_keys b' !! log_key j = None) /\
       (forall key, (forall j, min <= j <= max -> key <> log_key j) ->
                    buntdb.db_keys b' !! key = buntdb.db_keys b !! key)) /\
    (err = None <->
       buntdb.db_closed b = false /\
       (forall j e, min <= j <= max -> buntdb.delete_fault F (log_key j) = Some e ->
                    e = buntdb_ErrNotFound) /\
       buntdb.commit_fault F = None) /\
    (forall e, err = Some e ->
       e = buntdb_ErrDatabaseClosed \/
       (e <> buntdb_ErrNotFound /\
        exists j, min <= j <= max /\ buntdb.delete_fault F (log_key j) = Some e) \/
       buntdb.commit_fault F = Some e).
Proof.
  intros Hmin Hmax Hfuel. unfold BuntStore.DeleteRange, buntdb.Update.
  destruct (buntdb.db_closed b) eqn:Hc.
  { exists b, (Some buntdb_ErrDatabaseClosed). split; [reflexivity|].
    split; [done|]. split; [done|]. split.
    - split; [discriminate | intros (? & _); discriminate].
    - intros e [= <-]. now left. }
  destruct (DeleteRange_loop_spec F max (Z.to_nat (max - min + 1)) fuel
              (buntdb.db_keys b) min)
    as (tx' & err & -> & Hout & Hnone & Hgone & Herr & Hok); [lia..|].
  cbn [mbind option_bind]. destruct err as [e|].
  { exists b, (Some e). split; [reflexivity|].
    split; [done|]. split; [done|]. split.
    - split; [discriminate|]. intros (_ & Hall & _). now apply Hok in Hall.
    - intros e' [= <-]. right. left. now apply Herr. }
  destruct (buntdb.commit_fault F) as [e|] eqn:Hcf.
  { exists b, (Some e). split; [reflexivity|].
    split; [done|]. split; [done|]. split.
    - split; [discriminate | intros (_ & _ & ?); discriminate].
    - intros e' [= <-]. now right; right. }
  eexists _, None. split; [reflexivity|].
  split; [done|]. split; [|split].
  - intros _. cbn [buntdb.db_keys]. split; [now apply Hgone | exact Hout].
  - split; [|reflexivity]. intros _. split; [reflexivity|].
    split; [now apply Hok | reflexivity].
  - discriminate.
Qed.

Lemma DeleteRange_spec_witness :
  exists b' err,
    BuntStore.DeleteRange buntdb.no_faults 3 buntdb.empty_db 1 2 = Some (b', err) /\
    err = None.
Proof.
  destruct (DeleteRange_spec buntdb.no_faults 3 buntdb.empty_db 1 2)
    as (b' & err & Heq & _ & _ & Hiff & _);
    [lia | unfold maxUint64; lia | simpl; lia |].
  exists b', err. split; [exact Heq|].
  apply Hiff. repeat split. intros j e _ Hf. discriminate.
Defined.

(** [DeleteRange] keeps the invariant on the keys. *)
Lemma DeleteRange_loop_wf (F : buntdb.Faults) (fuel : nat) :
  forall (tx tx' : gmap string string) (i max : Z) (err : option error),
    wf_keys tx ->
    BuntStore.DeleteRange_loop F fuel tx i max = Some (tx', err) ->
    wf_keys tx'.
Proof.
  induction fuel as [|fuel IH]; intros tx tx' i max err Hwf; [discriminate|].
  cbn [BuntStore.DeleteRange_loop]. destruct (i <=? max); [|now intros [= <- _]].
  pose proof (Delete_cases F tx (BuntStore.dbLogs +:+ DecimalKeys.uint64ToString i)) as Hd.
  destruct (buntdb.Delete F tx _) as [tx1 [e|]].
  - destruct Hd as [-> _]. destruct (bool_decide (e ≠ buntdb_ErrNotFound)).
    + now intros [= <- _].
    + now apply IH.
  - destruct Hd as (_ & _ & ->). apply IH. now apply wf_keys_delete.
Qed.

Lemma DeleteRange_wf (F : buntdb.Faults) (fuel : nat) (b b' : buntdb.DB) (min max : Z)
    (err : option error) :
  wf_keys (buntdb.db_keys b) ->
  BuntStore.DeleteRange F fuel b min max = Some (b', err) ->
  wf_keys (buntdb.db_keys b').
Proof.
  intros Hwf. unfold BuntStore.DeleteRange, buntdb.Update.
  destruct (buntdb.db_closed b); [now intros [= <- _]|].
  destruct (BuntStore.DeleteRange_loop F fuel (buntdb.db_keys b) min max)
    as [[tx' err']|] eqn:Hloop; [|discriminate].
  cbn [mbind option_bind]. destruct err'; [now intros [= <- _]|].
  destruct (buntdb.commit_fault F); [now intros [= <- _]|].
  intros [= <- _]. cbn [buntdb.db_keys].
  now apply (DeleteRange_loop_wf F fuel _ _ _ _ _ Hwf Hloop).
Qed.

(** ** GetLog *)

Lemma GetLog_eval (F : buntdb.Faults) (b : buntdb.DB) (idx : Z) (log : Log) :
  BuntStore.GetLog F b idx log =
    if buntdb.db_closed b then Some (log, Some buntdb_ErrDatabaseClosed)
    else match buntdb.Get F (buntdb.db_keys b) (log_key idx) with
         | (_, Some e) =>
             if bool_decide (e = buntdb_ErrNotFound)
             then Some (log, Some raft_ErrLogNotFound)
             else Some (log, Some e)
         | (val, None) => decodeLog (list_byte_of_string val) log
         end.
Proof.
  unfold BuntStore.GetLog, buntdb.View.
  destruct (buntdb.db_closed b); [reflexivity|].
  change (BuntStore.dbLogs +:+ DecimalKeys.uint64ToString idx)%string with (log_key idx).
  destruct (buntdb.Get F (buntdb.db_keys b) (log_key idx)) as [val [e|]]; reflexivity.
Qed.

(** [GetLog] of an index without an entry is the log-not-found condition. *)
Lemma GetLog_absent (F : buntdb.Faults) (b : buntdb.DB) (idx : Z) (log : Log) :
  buntdb.db_closed b = false ->
  buntdb.get_fault F (log_key idx) = None ->
  buntdb.db_keys b !! log_key idx = None ->
  BuntStore.GetLog F b idx log = Some (log, Some raft_ErrLogNotFound).
Proof.
  intros Hc Hf Hk. rewrite GetLog_eval, Hc. unfold buntdb.Get. now rewrite Hf, Hk.
Qed.

(** [GetLog] of an index whose value [StoreLogs] wrote returns the entry. *)
Lemma GetLog_stored (F : buntdb.Faults) (b : buntdb.DB) (e log : Log) :
  valid_log e ->
  buntdb.db_closed b = false ->
  buntdb.get_fault F (log_key (Index e)) = None ->
  buntdb.db_keys b !! log_key (Index e) = Some (log_val e) ->
  BuntStore.GetLog F b (Index e) log = Some (e, None).
Proof.
  intros He Hc Hf Hk. rewrite GetLog_eval, Hc. unfold buntdb.Get. rewrite Hf, Hk.
  unfold log_val. rewrite encodeLog_layout, list_byte_of_string_of_list_byte.
  destruct He as [Hi Ht]. rewrite decodeLog_layout by assumption.
  destruct e; reflexivity.
Qed.

(** C10, at the failing bound: with [max = 2^64 - 1] the loop of
    [DeleteRange] does not end after [max - min + 1] iterations, nor after any
    number of them: whatever the lower bound (any 64-bit value), whatever
    the keys and however many tests of its condition it is given, it is
    still running (the engine not failing). *)
Theorem DeleteRange_loop_diverges_at_max (fuel : nat) (tx : gmap string string) (min : Z) :
  BuntStore.DeleteRange_loop buntdb.no_faults fuel tx (wrap64 min) maxUint64 = None.
Proof.
  apply DeleteRange_loop_no_exit.
  unfold is_uint64, wrap64, uint64_modulus. apply Z.mod_pos_bound. lia.
Qed.

(** C6, at the failing input: on the store holding the entries 1, 2 and 3,
    [DeleteRange(1, 2)] returns no error, removes 1 and 2 and leaves 3 as it
    was, but [DeleteRange(1, 2^64-1)] never returns, whatever the number of
    tests of the loop condition it is given. *)
Theorem DeleteRange_to_max_never_returns :
  exists b b',
    BuntStore.StoreLogs buntdb.no_faults buntdb.empty_db
      [testRaftLog 1 "log1"; testRaftLog 2 "log2"; testRaftLog 3 "log3"]
      = Some (b, None) /\
    BuntStore.DeleteRange buntdb.no_faults 3 b 1 2 = Some (b', None) /\
    BuntStore.GetLog buntdb.no_faults b' 1 zero_log = Some (zero_log, Some raft_ErrLogNotFound) /\
    BuntStore.GetLog buntdb.no_faults b' 2 zero_log = Some (zero_log, Some raft_ErrLogNotFound) /\
    BuntStore.GetLog buntdb.no_faults b' 3 zero_log = Some (testRaftLog 3 "log3", None) /\
    forall fuel, BuntStore.DeleteRange buntdb.no_faults fuel b 1 maxUint64 = None.
Proof.
  do 2 eexists. do 5 (split; [reflexivity|]).
  intros fuel. unfold BuntStore.DeleteRange, buntdb.Update. cbn [buntdb.db_closed].
  rewrite DeleteRange_loop_no_exit; [reflexivity|].
  unfold is_uint64, uint64_modulus. lia.
Qed.

(** * Further properties of the code *)

(** ** The key codecs *)

Lemma is_uint64_max : is_uint64 maxUint64.
Proof. unfold is_uint64, maxUint64, uint64_modulus. lia. Qed.

Lemma is_uint64_small (v : Z) : 0 <= v < 1000 -> is_uint64 v.
Proof. unfold is_uint64, uint64_modulus. lia. Qed.

(** X1. The decimal key of every 64-bit index has exactly 20 bytes, and
    [stringToUint64] reads it back as the index; the parse it is built on
    reports no error. *)
Theorem decimal_key_roundtrip (u : Z) :
  is_uint64 u ->
  String.length (DecimalKeys.uint64ToString u) = 20%nat /\
  strconv.ParseUint (DecimalKeys.uint64ToString u) = (u, None) /\
  DecimalKeys.stringToUint64 (DecimalKeys.uint64ToString u) = u.
Proof.
  intros Hu. split; [now apply uint64ToString_length|].
  split; [now apply ParseUint_uint64ToString | now apply stringToUint64_uint64ToString].
Qed.

Lemma decimal_key_roundtrip_witness :
  String.length (DecimalKeys.uint64ToString maxUint64) = 20%nat /\
  strconv.ParseUint (DecimalKeys.uint64ToString maxUint64) = (maxUint64, None) /\
  DecimalKeys.stringToUint64 (DecimalKeys.uint64ToString maxUint64) = maxUint64.
Proof. apply (decimal_key_roundtrip maxUint64). exact is_uint64_max. Defined.

(** X2. Byte-wise comparison of the decimal keys of two 64-bit indices gives
    the comparison of the indices: the keys are in the order of the indices,
    and equal only for equal indices. *)
Theorem decimal_key_order (i j : Z) :
  is_uint64 i -> is_uint64 j ->
  String.compare (DecimalKeys.uint64ToString i) (DecimalKeys.uint64ToString j) = (i ?= j) /\
  (DecimalKeys.uint64ToString i = DecimalKeys.uint64ToString j -> i = j).
Proof.
  intros Hi Hj. split; [now apply uint64ToString_compare | now apply uint64ToString_inj].
Qed.

Lemma decimal_key_order_witness :
  String.compare (DecimalKeys.uint64ToString 9) (DecimalKeys.uint64ToString 10) = (9 ?= 10) /\
  (DecimalKeys.uint64ToString 9 = DecimalKeys.uint64ToString 10 -> 9 = 10).
Proof.
  apply (decimal_key_order 9 10); apply is_uint64_small; lia.
Defined.

Lemma string_of_list_byte_length (l : list byte) :
  String.length (string_of_list_byte l) = length l.
Proof.
  rewrite <- (list_byte_of_string_of_list_byte l) at 2.
  now rewrite length_list_byte_of_string.
Qed.

(** X3. The binary key of every 64-bit index has exactly 8 bytes, is
    produced without panic, and [stringToUint64] of the binary snapshot reads
    it back as the index. *)
Theorem binary_key_roundtrip (u : Z) :
  is_uint64 u ->
  exists k,
    BinaryKeys.uint64ToString u = Some k /\
    String.length k = 8%nat /\
    BinaryKeys.stringToUint64 k = Some u.
Proof.
  intros Hu. unfold BinaryKeys.uint64ToString, BinaryKeys.stringToUint64.
  rewrite PutUint64_spec by (unfold make_bytes; rewrite length_replicate; lia).
  cbn [mbind option_bind]. eexists. split; [reflexivity|].
  split.
  - rewrite string_of_list_byte_length. reflexivity.
  - rewrite list_byte_of_string_of_list_byte. now apply Uint64_le_bytes.
Qed.

Lemma binary_key_roundtrip_witness :
  exists k,
    BinaryKeys.uint64ToString maxUint64 = Some k /\
    String.length k = 8%nat /\
    BinaryKeys.stringToUint64 k = Some maxUint64.
Proof. apply (binary_key_roundtrip maxUint64). exact is_uint64_max. Defined.

Lemma Uint64_panics_iff (b : list byte) :
  LittleEndian.Uint64 b = None <-> (length b < 8)%nat.
Proof.
  split.
  - intros Hn. destruct (Nat.lt_ge_cases (length b) 8) as [Hlt|Hge]; [exact Hlt|].
    destruct (Uint64_total b Hge) as [v Hv]. congruence.
  - intros Hlt.
    do 8 (destruct b as [|? b]; [reflexivity|]). simpl in Hlt. lia.
Qed.

Lemma Uint64_sum (b0 b1 b2 b3 b4 b5 b6 b7 : byte) (rest : list byte) :
  LittleEndian.Uint64 (b0 :: b1 :: b2 :: b3 :: b4 :: b5 :: b6 :: b7 :: rest) =
    Some (byte_to_Z b0 + byte_to_Z b1 * 2 ^ 8 + byte_to_Z b2 * 2 ^ 16
          + byte_to_Z b3 * 2 ^ 24 + byte_to_Z b4 * 2 ^ 32 + byte_to_Z b5 * 2 ^ 40
          + byte_to_Z b6 * 2 ^ 48 + byte_to_Z b7 * 2 ^ 56).
Proof.
  unfold LittleEndian.Uint64. f_equal.
  pose proof (byte_to_Z_range b0). pose proof (byte_to_Z_range b1).
  pose proof (byte_to_Z_range b2). pose proof (byte_to_Z_range b3).
  pose proof (byte_to_Z_range b4). pose proof (byte_to_Z_range b5).
  pose proof (byte_to_Z_range b6). pose proof (byte_to_Z_range b7).
  rewrite (or64_shl64_add _ _ 8) by (unfold uint64_modulus; lia).
  rewrite (or64_shl64_add _ _ 16) by (unfold uint64_modulus; lia).
  rewrite (or64_shl64_add _ _ 24) by (unfold uint64_modulus; lia).
  rewrite (or64_shl64_add _ _ 32) by (unfold uint64_modulus; lia).
  rewrite (or64_shl64_add _ _ 40) by (unfold uint64_modulus; lia).
  rewrite (or64_shl64_add _ _ 48) by (unfold uint64_modulus; lia).
  rewrite (or64_shl64_add _ _ 56) by (unfold uint64_modulus; lia).
  reflexivity.
Qed.

(** What [Uint64] reads is a 64-bit value. *)
Lemma Uint64_range (b : list byte) (v : Z) :
  LittleEndian.Uint64 b = Some v -> is_uint64 v.
Proof.
  intros Hv.
  do 8 (destruct b as [|? b]; [discriminate|]).
  rewrite Uint64_sum in Hv. injection Hv as <-.
  pose proof (byte_to_Z_range b0). pose proof (byte_to_Z_range b1).
  pose proof (byte_to_Z_range b2). pose proof (byte_to_Z_range b3).
  pose proof (byte_to_Z_range b4). pose proof (byte_to_Z_range b5).
  pose proof (byte_to_Z_range b6). pose proof (byte_to_Z_range b7).
  unfold is_uint64, uint64_modulus. lia.
Qed.

Lemma byte_of_Z_eq (x : Z) (b : byte) : x mod 256 = byte_to_Z b -> byte_of_Z x = b.
Proof.
  intros Hx. rewrite <- (byte_of_to_Z b), <- Hx.
  unfold byte_of_Z. now rewrite Z.mod_mod by lia.
Qed.

(** The bytes [PutUint64] stores for what [Uint64] read are the bytes read. *)
Lemma le_bytes_Uint64 (b0 b1 b2 b3 b4 b5 b6 b7 : byte) (rest : list byte) (v : Z) :
  LittleEndian.Uint64 (b0 :: b1 :: b2 :: b3 :: b4 :: b5 :: b6 :: b7 :: rest) = Some v ->
  le_bytes v = [b0; b1; b2; b3; b4; b5; b6; b7].
Proof.
  rewrite Uint64_sum. intros [= <-].
  pose proof (byte_to_Z_range b0). pose proof (byte_to_Z_range b1).
  pose proof (byte_to_Z_range b2). pose proof (byte_to_Z_range b3).
  pose proof (byte_to_Z_range b4). pose proof (byte_to_Z_range b5).
  pose proof (byte_to_Z_range b6). pose proof (byte_to_Z_range b7).
  unfold le_bytes, shr64. rewrite !Z.shiftr_div_pow2 by lia.
  change (2 ^ 8) with 256. change (2 ^ 16) with 65536.
  change (2 ^ 24) with 16777216. change (2 ^ 32) with 4294967296.
  change (2 ^ 40) with 1099511627776. change (2 ^ 48) with 281474976710656.
  change (2 ^ 56) with 72057594037927936.
  repeat (f_equal; [apply byte_of_Z_eq; Z.to_euclidean_division_equations; lia|]).
  f_equal. apply byte_of_Z_eq. Z.to_euclidean_division_equations. lia.
Qed.

(** X4. [stringToUint64] of the binary snapshot panics exactly on the strings
    of fewer than 8 bytes (the empty string among them); on any longer
    string it returns a 64-bit value, read from the first 8 bytes only. *)
Theorem binary_stringToUint64_panics_iff (s : string) :
  (BinaryKeys.stringToUint64 s = None <-> (String.length s < 8)%nat) /\
  (forall v, BinaryKeys.stringToUint64 s = Some v ->
     is_uint64 v /\
     BinaryKeys.stringToUint64 (substring 0 8 s) = Some v).
Proof.
  unfold BinaryKeys.stringToUint64. split.
  - rewrite Uint64_panics_iff, length_list_byte_of_string. reflexivity.
  - intros v Hv. split; [now apply Uint64_range in Hv|].
    destruct s as [|c0 [|c1 [|c2 [|c3 [|c4 [|c5 [|c6 [|c7 s]]]]]]]]; try discriminate.
    exact Hv.
Qed.

(** ** The log codec, the other way round *)

(** X5. Whatever [decodeLog] decodes without error, [encodeLog] encodes back
    to the very same bytes; the index and the term it decodes are 64-bit
    values. With the round trip of entries, the codec is a bijection between
    entries and buffers of at least 17 bytes. *)
Theorem encodeLog_decodeLog (buf : list byte) (in_ log : Log) :
  decodeLog buf in_ = Some (log, None) ->
  valid_log log /\ encodeLog log = Some (buf, None).
Proof.
  intros H. unfold decodeLog in H.
  destruct (Nat.ltb_spec (length buf) 17) as [Hlt|Hge]; [discriminate|].
  do 17 (destruct buf as [|? buf]; [simpl in Hge; lia|]). clear Hge.
  cbn -[LittleEndian.Uint64] in H.
  destruct (LittleEndian.Uint64 [b; b0; b1; b2; b3; b4; b5; b6]) as [index|] eqn:Hi;
    [|discriminate].
  cbn -[LittleEndian.Uint64] in H.
  destruct (LittleEndian.Uint64 [b7; b8; b9; b10; b11; b12; b13; b14]) as [term|] eqn:Ht;
    [|discriminate].
  cbn in H. injection H as <-. split.
  - split; cbn [Index Term]; eapply Uint64_range; eassumption.
  - rewrite encodeLog_layout. cbn [Index Term Type_ Data].
    rewrite (le_bytes_Uint64 _ _ _ _ _ _ _ _ _ _ Hi), (le_bytes_Uint64 _ _ _ _ _ _ _ _ _ _ Ht).
    reflexivity.
Qed.

Lemma encodeLog_decodeLog_witness :
  valid_log (testRaftLog 7 "log7") /\
  encodeLog (testRaftLog 7 "log7")
  = Some ([x07; x00; x00; x00; x00; x00; x00; x00; x00; x00; x00; x00; x00; x00;
           x00; x00; x00; x6c; x6f; x67; x37], None).
Proof.
  apply (encodeLog_decodeLog
           [x07; x00; x00; x00; x00; x00; x00; x00; x00; x00; x00; x00; x00; x00;
            x00; x00; x00; x6c; x6f; x67; x37] zero_log (testRaftLog 7 "log7")).
  reflexivity.
Defined.

(** X6. [encodeLog] never fails and never panics, whatever the entry: it
    returns a buffer of exactly 17 bytes more than the payload, with the type
    tag at offset 16 and the payload, unchanged, from offset 17 on. *)
Theorem encodeLog_size (e : Log) :
  exists buf,
    encodeLog e = Some (buf, None) /\
    length buf = (17 + length (Data e))%nat /\
    buf !! 16%nat = Some (Type_ e) /\
    drop 17 buf = Data e.
Proof.
  eexists. split; [apply encodeLog_layout|]. repeat split.
Qed.

(** ** Storing and reading log entries *)

Lemma store_all_app (tx : gmap string string) (l1 l2 : list Log) :
  store_all tx (l1 ++ l2) = store_all (store_all tx l1) l2.
Proof. unfold store_all. apply foldl_app. Qed.

Lemma StoreLogs_success (F : buntdb.Faults) (b b' : buntdb.DB) (logs : list Log) :
  BuntStore.StoreLogs F b logs = Some (b', None) ->
  buntdb.db_closed b = false /\ b' = buntdb.mkDB false (store_all (buntdb.db_keys b) logs).
Proof.
  rewrite StoreLogs_eval. destruct (buntdb.db_closed b); [discriminate|].
  destruct (first_set_fault F logs); [discriminate|].
  destruct (buntdb.commit_fault F); [discriminate|].
  intros [= <-]. split; reflexivity.
Qed.

(** X7. [StoreLog] followed by [GetLog] of the entry's index gives the entry
    back, field for field, whatever was stored at that index before (the
    store being open and the engine not failing on the entry's key). *)
Theorem StoreLog_GetLog (F : buntdb.Faults) (b : buntdb.DB) (e log : Log) :
  valid_log e ->
  buntdb.db_closed b = false ->
  buntdb.set_fault F (log_key (Index e)) (log_val e) = None ->
  buntdb.commit_fault F = None ->
  buntdb.get_fault F (log_key (Index e)) = None ->
  exists b',
    BuntStore.StoreLog F b e = Some (b', None) /\
    BuntStore.GetLog F b' (Index e) log = Some (e, None).
Proof.
  intros He Hc Hset Hcommit Hget. unfold BuntStore.StoreLog.
  rewrite StoreLogs_eval, Hc. cbn [first_set_fault]. rewrite Hset, Hcommit.
  eexists. split; [reflexivity|].
  apply GetLog_stored; [assumption | reflexivity | assumption |].
  cbn [buntdb.db_keys store_all foldl]. apply lookup_insert_eq.
Qed.

Lemma StoreLog_GetLog_witness :
  exists b',
    BuntStore.StoreLog buntdb.no_faults buntdb.empty_db (testRaftLog 1 "log1")
      = Some (b', None) /\
    BuntStore.GetLog buntdb.no_faults b' 1 zero_log = Some (testRaftLog 1 "log1", None).
Proof.
  apply (StoreLog_GetLog buntdb.no_faults buntdb.empty_db (testRaftLog 1 "log1") zero_log);
    try reflexivity.
  split; apply is_uint64_small; simpl; lia.
Defined.

(** X8. After a successful [StoreLogs], [GetLog] of an index returns the last
    entry of the sequence with that index: a later entry overwrites an
    earlier one and what the store held. *)
Theorem StoreLogs_GetLog_last (F : buntdb.Faults) (b b' : buntdb.DB)
    (pre post : list Log) (e log : Log) :
  BuntStore.StoreLogs F b (pre ++ e :: post) = Some (b', None) ->
  valid_log e ->
  Forall (fun e' => is_uint64 (Index e') /\ Index e' <> Index e) post ->
  buntdb.get_fault F (log_key (Index e)) = None ->
  BuntStore.GetLog F b' (Index e) log = Some (e, None).
Proof.
  intros Hst He Hpost Hget. apply StoreLogs_success in Hst as [Hc ->].
  apply GetLog_stored; [assumption | reflexivity | assumption |].
  cbn [buntdb.db_keys]. rewrite store_all_app. cbn [store_all foldl].
  fold (store_all (<[log_key (Index e) := log_val e]> (store_all (buntdb.db_keys b) pre)) post).
  rewrite store_all_lookup_other; [apply lookup_insert_eq|].
  intros e' He' Heq. rewrite Forall_forall in Hpost.
  destruct (Hpost e' He') as [Hv Hne]. apply Hne. symmetry.
  apply log_key_inj; [apply He | exact Hv | exact Heq].
Qed.

Lemma StoreLogs_GetLog_last_witness :
  BuntStore.GetLog buntdb.no_faults
    (buntdb.mkDB false
       (store_all ∅ [testRaftLog 1 "old"; testRaftLog 1 "new"; testRaftLog 2 "log2"]))
    1 zero_log
  = Some (testRaftLog 1 "new", None).
Proof.
  apply (StoreLogs_GetLog_last buntdb.no_faults buntdb.empty_db _
           [testRaftLog 1 "old"] [testRaftLog 2 "log2"] (testRaftLog 1 "new") zero_log).
  - reflexivity.
  - split; apply is_uint64_small; simpl; lia.
  - repeat constructor; simpl; try lia; unfold uint64_modulus; lia.
  - reflexivity.
Defined.

Lemma store_all_is_Some (logs : list Log) (tx : gmap string string) (key : string) :
  is_Some (store_all tx logs !! key) <->
  is_Some (tx !! key) \/ exists e, e ∈ logs /\ log_key (Index e) = key.
Proof.
  revert tx. induction logs as [|e logs IH]; intros tx.
  - cbn. split; [auto|]. intros [H|(e & He & _)]; [exact H|]. by apply not_elem_of_nil in He.
  - cbn [store_all foldl].
    fold (store_all (<[log_key (Index e) := log_val e]> tx) logs).
    rewrite IH, lookup_insert_is_Some. split.
    + intros [[Heq|[_ Hs]]|(e' & He' & Hk)].
      * right. exists e. split; [left | exact Heq].
      * now left.
      * right. exists e'. split; [now right | exact Hk].
    + intros [Hs|(e' & He' & Hk)].
      * left. destruct (decide (log_key (Index e) = key)); auto.
      * apply elem_of_cons in He' as [->|He'].
        -- left. now left.
        -- right. eauto.
Qed.

(** X9. After a successful [StoreLogs] of entries with 64-bit indices, the
    indices present in the log are those that were present before and those
    of the entries; [FirstIndex] and [LastIndex] then return the smallest
    and the largest of them, so they enclose every index just stored. *)
Theorem StoreLogs_indices (F : buntdb.Faults) (b b' : buntdb.DB) (logs : list Log) :
  BuntStore.StoreLogs F b logs = Some (b', None) ->
  Forall (fun e => is_uint64 (Index e)) logs ->
  wf_keys (buntdb.db_keys b) ->
  (forall j, has_log b' j <-> has_log b j \/ exists e, e ∈ logs /\ Index e = j) /\
  (forall e, e ∈ logs ->
     exists lo hi,
       BuntStore.FirstIndex b' = Some (lo, None) /\
       BuntStore.LastIndex b' = Some (hi, None) /\
       has_log b' lo /\ has_log b' hi /\ lo <= Index e <= hi).
Proof.
  intros Hst Hidx Hwf.
  pose proof (StoreLogs_wf F b b' logs None Hidx Hwf Hst) as Hwf'.
  apply StoreLogs_success in Hst as [Hc ->].
  assert (Hlog : forall j, has_log (buntdb.mkDB false (store_all (buntdb.db_keys b) logs)) j
                           <-> has_log b j \/ exists e, e ∈ logs /\ Index e = j).
  { intros j. unfold has_log. cbn [buntdb.db_keys]. rewrite store_all_is_Some.
    rewrite Forall_forall in Hidx. split.
    - intros [Hj [Hs|(e & He & Hk)]]; [left; auto|].
      right. exists e. split; [exact He|].
      apply log_key_inj; [now apply Hidx | exact Hj | exact Hk].
    - intros [[Hj Hs]|(e & He & <-)]; (split; [auto|]); [now left|].
      right. eauto. }
  split; [exact Hlog|].
  intros e He.
  assert (Hhas : has_log (buntdb.mkDB false (store_all (buntdb.db_keys b) logs)) (Index e)).
  { apply Hlog. right. eauto. }
  destruct (FirstIndex_LastIndex_bounds
              (buntdb.mkDB false (store_all (buntdb.db_keys b) logs))
              (Index e) eq_refl Hwf' Hhas)
    as (lo & hi & Hf & Hl & Hlo & Hhi & Hb).
  exists lo, hi. repeat split; try assumption; try apply Hlo; try apply Hhi;
    now apply Hb.
Qed.

Lemma StoreLogs_indices_witness :
  exists lo hi,
    BuntStore.FirstIndex
      (buntdb.mkDB false (store_all ∅ [testRaftLog 5 "log5"; testRaftLog 4 "log4"]))
      = Some (lo, None) /\
    BuntStore.LastIndex
      (buntdb.mkDB false (store_all ∅ [testRaftLog 5 "log5"; testRaftLog 4 "log4"]))
      = Some (hi, None) /\
    lo <= 5 <= hi.
Proof.
  destruct (StoreLogs_indices buntdb.no_faults buntdb.empty_db
              (buntdb.mkDB false (store_all ∅ [testRaftLog 5 "log5"; testRaftLog 4 "log4"]))
              [testRaftLog 5 "log5"; testRaftLog 4 "log4"])
    as [_ H].
  - reflexivity.
  - repeat constructor; simpl; try lia; unfold uint64_modulus; lia.
  - exact wf_keys_empty.
  - destruct (H (testRaftLog 5 "log5")) as (lo & hi & Hf & Hl & _ & _ & Hb); [left|].
    exists lo, hi. auto.
Defined.

(** ** The metadata namespace *)

Lemma conf_key_inj (k k' : list byte) : conf_key k = conf_key k' -> k = k'.
Proof.
  unfold conf_key, BuntStore.dbConf. rewrite !append_cons, !append_nil.
  intros Heq. injection Heq as Heq.
  rewrite <- (list_byte_of_string_of_list_byte k), Heq.
  apply list_byte_of_string_of_list_byte.
Qed.

Lemma Set_success (F : buntdb.Faults) (b b' : buntdb.DB) (k v : list byte) :
  BuntStore.Set_ F b k v = Some (b', None) ->
  buntdb.db_closed b = false /\
  b' = buntdb.mkDB false (<[conf_key k := string_of_list_byte v]> (buntdb.db_keys b)).
Proof.
  rewrite Set_eval. destruct (buntdb.db_closed b); [discriminate|].
  destruct (buntdb.set_fault F _ _); [discriminate|].
  destruct (buntdb.commit_fault F); [discriminate|].
  intros [= <-]. split; reflexivity.
Qed.

(** What [Get] reads is what [Set] wrote. *)
Lemma Set_then_Get (F : buntdb.Faults) (b : buntdb.DB) (k v : list byte) :
  buntdb.db_closed b = false ->
  buntdb.set_fault F (conf_key k) (string_of_list_byte v) = None ->
  buntdb.commit_fault F = None ->
  buntdb.get_fault F (conf_key k) = None ->
  exists b',
    BuntStore.Set_ F b k v = Some (b', None) /\
    BuntStore.Get F b' k = Some (Some v, None) /\
    LevelStore.Get F b' k = Some (Some v, None).
Proof.
  intros Hc Hset Hcommit Hget. rewrite Set_eval, Hc, Hset, Hcommit.
  eexists. split; [reflexivity|].
  rewrite BuntStore_Get_eval, LevelStore_Get_eval. cbn [buntdb.db_closed buntdb.db_keys].
  unfold buntdb.Get. rewrite Hget, lookup_insert_eq.
  rewrite list_byte_of_string_of_list_byte. split; reflexivity.
Qed.

(** X10. [Set(k, v)] followed by [Get(k)] returns exactly [v], without
    error, for every key and every value, the empty ones included, whatever
    the key held before (the store being open and the engine not failing on
    the key). *)
Theorem Set_Get (F : buntdb.Faults) (b : buntdb.DB) (k v : list byte) :
  buntdb.db_closed b = false ->
  buntdb.set_fault F (conf_key k) (string_of_list_byte v) = None ->
  buntdb.commit_fault F = None ->
  buntdb.get_fault F (conf_key k) = None ->
  exists b',
    BuntStore.Set_ F b k v = Some (b', None) /\
    BuntStore.Get F b' k = Some (Some v, None) /\
    LevelStore.Get F b' k = Some (Some v, None).
Proof. exact (Set_then_Get F b k v). Qed.

Lemma Set_Get_witness :
  exists b',
    BuntStore.Set_ buntdb.no_faults buntdb.empty_db
      (list_byte_of_string "hello") (list_byte_of_string "world") = Some (b', None) /\
    BuntStore.Get buntdb.no_faults b' (list_byte_of_string "hello")
      = Some (Some (list_byte_of_string "world"), None) /\
    LevelStore.Get buntdb.no_faults b' (list_byte_of_string "hello")
      = Some (Some (list_byte_of_string "world"), None).
Proof.
  apply (Set_Get buntdb.no_faults buntdb.empty_db
           (list_byte_of_string "hello") (list_byte_of_string "world")); reflexivity.
Defined.

(** X11. [Set(k, v)] touches nothing but its own key: whatever it returns,
    [Get] of every other key and [GetLog] of every index return afterwards
    what they returned before. *)
Theorem Set_frame (F : buntdb.Faults) (b b' : buntdb.DB) (k v : list byte)
    (err : option error) :
  BuntStore.Set_ F b k v = Some (b', err) ->
  (forall k', k' <> k -> BuntStore.Get F b' k' = BuntStore.Get F b k') /\
  (forall idx log, BuntStore.GetLog F b' idx log = BuntStore.GetLog F b idx log).
Proof.
  rewrite Set_eval. destruct (buntdb.db_closed b) eqn:Hc; [now intros [= <- _]|].
  destruct (buntdb.set_fault F _ _); [now intros [= <- _]|].
  destruct (buntdb.commit_fault F); [now intros [= <- _]|].
  intros [= <- _]. split.
  - intros k' Hne. rewrite !BuntStore_Get_eval, Hc. cbn [buntdb.db_closed buntdb.db_keys].
    unfold buntdb.Get. rewrite lookup_insert_ne; [reflexivity|].
    intros Heq. apply Hne. symmetry. now apply conf_key_inj.
  - intros idx log. rewrite !GetLog_eval, Hc. cbn [buntdb.db_closed buntdb.db_keys].
    unfold buntdb.Get. rewrite lookup_insert_ne; [reflexivity|].
    intros Heq. symmetry in Heq. now apply log_key_conf_key in Heq.
Qed.

Lemma Set_frame_witness :
  BuntStore.Get buntdb.no_faults
    (buntdb.mkDB false {[ conf_key (list_byte_of_string "a") := "1"%string ]})
    (list_byte_of_string "b")
  = BuntStore.Get buntdb.no_faults buntdb.empty_db (list_byte_of_string "b").
Proof.
  apply (proj1 (Set_frame buntdb.no_faults buntdb.empty_db _
                  (list_byte_of_string "a") (list_byte_of_string "1") None eq_refl)).
  discriminate.
Defined.

(** X12. [SetUint64(k, v)] followed by [GetUint64(k)] returns [v], without
    error, for every 64-bit value (the store being open and the engine not
    failing on the key); [GetUint64] of the snapshot with levels reads the
    same value from what was written. *)
Theorem SetUint64_GetUint64 (F : buntdb.Faults) (b : buntdb.DB) (k : list byte) (v : Z) :
  is_uint64 v ->
  buntdb.db_closed b = false ->
  (forall val, buntdb.set_fault F (conf_key k) val = None) ->
  buntdb.commit_fault F = None ->
  buntdb.get_fault F (conf_key k) = None ->
  exists b',
    BuntStore.SetUint64 F b k v = Some (b', None) /\
    BuntStore.GetUint64 F b' k = Some (v, None) /\
    LevelStore.GetUint64 F b' k = Some (v, None).
Proof.
  intros Hv Hc Hset Hcommit Hget.
  unfold BuntStore.SetUint64, BuntStore.GetUint64, LevelStore.GetUint64.
  destruct (Set_then_Get F b k (list_byte_of_string (DecimalKeys.uint64ToString v))
              Hc (Hset _) Hcommit Hget) as (b' & Hs & Hg & Hg').
  rewrite Hs. exists b'. split; [reflexivity|]. rewrite Hg, Hg'. cbn [mbind option_bind].
  rewrite string_of_list_byte_of_string, stringToUint64_uint64ToString by exact Hv.
  rewrite ParseUint_uint64ToString by exact Hv. split; reflexivity.
Qed.

Lemma SetUint64_GetUint64_witness :
  exists b',
    BuntStore.SetUint64 buntdb.no_faults buntdb.empty_db (list_byte_of_string "abc") 123
      = Some (b', None) /\
    BuntStore.GetUint64 buntdb.no_faults b' (list_byte_of_string "abc") = Some (123, None) /\
    LevelStore.GetUint64 buntdb.no_faults b' (list_byte_of_string "abc") = Some (123, None).
Proof.
  apply (SetUint64_GetUint64 buntdb.no_faults buntdb.empty_db (list_byte_of_string "abc") 123);
    try reflexivity.
  apply is_uint64_small. lia.
Defined.

(** [ParseUint] reads what [FormatUint] writes. *)
Lemma ParseUint_FormatUint (v : Z) :
  is_uint64 v -> strconv.ParseUint (strconv.FormatUint v) = (v, None).
Proof.
  intros Hv. pose proof (pow10_20_bound v Hv) as Hb.
  unfold strconv.FormatUint.
  destruct (format_loop_digits 19 v "" Hb) as (k & Hk & Hlt & ->).
  pose proof (digits_length k v "") as Hlen.
  unfold strconv.ParseUint.
  destruct (digits k v "") as [|c s] eqn:Hd; [simpl in Hlen; lia|].
  rewrite <- Hd. rewrite parse_loop_digits.
  - cbn [strconv.parse_loop]. rewrite Z.mod_small by lia. f_equal; lia.
  - lia.
  - lia.
  - rewrite Z.mod_small by lia. unfold is_uint64, uint64_modulus in Hv.
    unfold maxUint64. lia.
Qed.

(** X13. In the snapshot with levels, [SetUint64(k, v)] writes the decimal
    digits of [v] without padding, and [GetUint64(k)] afterwards returns [v]
    without error, for every 64-bit value; [GetUint64] of [bunt_store.go]
    reads the same value from it. *)
Theorem LevelStore_SetUint64_GetUint64
    (F : buntdb.Faults) (b : buntdb.DB) (k : list byte) (v : Z) :
  is_uint64 v ->
  buntdb.db_closed b = false ->
  (forall val, buntdb.set_fault F (conf_key k) val = None) ->
  buntdb.commit_fault F = None ->
  buntdb.get_fault F (conf_key k) = None ->
  exists b',
    LevelStore.SetUint64 F b k v = Some (b', None) /\
    LevelStore.GetUint64 F b' k = Some (v, None) /\
    BuntStore.GetUint64 F b' k = Some (v, None).
Proof.
  intros Hv Hc Hset Hcommit Hget.
  unfold LevelStore.SetUint64, BuntStore.GetUint64, LevelStore.GetUint64.
  change (LevelStore.Set_ F b k (list_byte_of_string (strconv.FormatUint v)))
    with (BuntStore.Set_ F b k (list_byte_of_string (strconv.FormatUint v))).
  destruct (Set_then_Get F b k (list_byte_of_string (strconv.FormatUint v))
              Hc (Hset _) Hcommit Hget) as (b' & Hs & Hg & Hg').
  rewrite Hs. exists b'. split; [reflexivity|]. rewrite Hg, Hg'. cbn [mbind option_bind].
  rewrite string_of_list_byte_of_string. unfold DecimalKeys.stringToUint64.
  rewrite ParseUint_FormatUint by exact Hv. split; reflexivity.
Qed.

Lemma LevelStore_SetUint64_GetUint64_witness :
  exists b',
    LevelStore.SetUint64 buntdb.no_faults buntdb.empty_db (list_byte_of_string "abc") 123
      = Some (b', None) /\
    LevelStore.GetUint64 buntdb.no_faults b' (list_byte_of_string "abc") = Some (123, None) /\
    BuntStore.GetUint64 buntdb.no_faults b' (list_byte_of_string "abc") = Some (123, None).
Proof.
  apply (LevelStore_SetUint64_GetUint64 buntdb.no_faults buntdb.empty_db
           (list_byte_of_string "abc") 123); try reflexivity.
  apply is_uint64_small. lia.
Defined.

(** ** How GetLog fails *)

(** [decodeLog] has two outcomes: the error on a short buffer, the entry it
    was given untouched, or an entry and no error. *)
Lemma decodeLog_error_cases (buf : list byte) (in_ : Log) :
  ((length buf < 17)%nat /\
   decodeLog buf in_ = Some (in_, Some (errors_New "invalid buffer"))) \/
  ((17 <= length buf)%nat /\ exists log, decodeLog buf in_ = Some (log, None)).
Proof.
  unfold decodeLog. destruct (Nat.ltb_spec (length buf) 17) as [Hlt|Hge]; [now left|].
  right. split; [exact Hge|].
  do 17 (destruct buf as [|? buf]; [simpl in Hge; lia|]).
  cbn -[LittleEndian.Uint64]. rewrite !Uint64_sum. cbn. eauto.
Qed.


(** X14. [GetLog] never panics, and whenever it returns an error the entry
    it was given is left as it was. On an open store: an index without a
    value is the log-not-found condition; an engine error other than
    not-found is returned as it is; a stored value of fewer than 17 bytes is
    the invalid-buffer error. *)
Theorem GetLog_failures (F : buntdb.Faults) (b : buntdb.DB) (idx : Z) (log : Log) :
  exists log' err,
    BuntStore.GetLog F b idx log = Some (log', err) /\
    (err <> None -> log' = log) /\
    (buntdb.db_closed b = false ->
     buntdb.get_fault F (log_key idx) = None ->
     buntdb.db_keys b !! log_key idx = None ->
     err = Some raft_ErrLogNotFound) /\
    (forall e,
       buntdb.db_closed b = false ->
       buntdb.get_fault F (log_key idx) = Some e -> e <> buntdb_ErrNotFound ->
       err = Some e) /\
    (forall val,
       buntdb.db_closed b = false ->
       buntdb.get_fault F (log_key idx) = None ->
       buntdb.db_keys b !! log_key idx = Some val ->
       (String.length val < 17)%nat ->
       err = Some (errors_New "invalid buffer")).
Proof.
  rewrite GetLog_eval. destruct (buntdb.db_closed b) eqn:Hc.
  { exists log, (Some buntdb_ErrDatabaseClosed). split; [reflexivity|].
    split; [done|]. repeat split; intros; discriminate. }
  unfold buntdb.Get. destruct (buntdb.get_fault F (log_key idx)) as [e|] eqn:Hf.
  { destruct (decide (e = buntdb_ErrNotFound)) as [->|Hne].
    - exists log, (Some raft_ErrLogNotFound). split; [reflexivity|].
      split; [done|]. split; [done|]. split.
      + intros e _ [= <-] Hne. now destruct Hne.
      + intros; discriminate.
    - rewrite bool_decide_eq_false_2 by exact Hne.
      exists log, (Some e). split; [reflexivity|].
      split; [done|]. split; [intros; discriminate|]. split.
      + now intros e' _ [= <-] _.
      + intros; discriminate. }
  destruct (buntdb.db_keys b !! log_key idx) as [val|] eqn:Hk.
  - destruct (decodeLog_error_cases (list_byte_of_string val) log)
      as [(Hlen & ->)|(Hlen & log' & ->)].
    + exists log, (Some (errors_New "invalid buffer")). split; [reflexivity|].
      split; [done|]. split; [intros; discriminate|]. split; [intros; discriminate|].
      reflexivity.
    + exists log', None. split; [reflexivity|].
      split; [done|]. split; [intros; discriminate|]. split; [intros; discriminate|].
      intros val' _ _ [= <-] Hshort. rewrite length_list_byte_of_string in Hlen. lia.
  - exists log, (Some raft_ErrLogNotFound). split; [reflexivity|].
    split; [done|]. split; [done|]. split; intros; discriminate.
Qed.

(** ** A closed store *)



(** ** DeleteRange, further *)

(** X16. [DeleteRange(min, max)] for [0 <= min <= max < 2^64-1], given more
    tests of the loop condition than the range has indices, returns. When it
    returns an error the store is unchanged and the error is the engine's
    (database closed, a delete that failed with an error other than
    not-found, or the commit). It returns no error exactly when the store is
    open, no delete of the range fails with an error other than not-found
    and the commit succeeds; then every index of the range the engine did not
    fail on is absent, absent indices having been skipped, and every other
    key is as it was. *)
Theorem DeleteRange_below_max (F : buntdb.Faults) (fuel : nat) (b : buntdb.DB) (min max : Z) :
  0 <= min <= max -> max < maxUint64 -> (Z.to_nat (max - min + 1) < fuel)%nat ->
  exists b' err,
    BuntStore.DeleteRange F fuel b min max = Some (b', err) /\
    (err <> None -> b' = b) /\
    (err = None ->
       (forall j, min <= j <= max -> buntdb.delete_fault F (log_key j) = None ->
                  buntdb.db_keys b' !! log_key j = None) /\
       (forall key, (forall j, min <= j <= max -> key <> log_key j) ->
                    buntdb.db_keys b' !! key = buntdb.db_keys b !! key)) /\
    (err = None <->
       buntdb.db_closed b = false /\
       (forall j e, min <= j <= max -> buntdb.delete_fault F (log_key j) = Some e ->
                    e = buntdb_ErrNotFound) /\
       buntdb.commit_fault F = None) /\
    (forall e, err = Some e ->
       e = buntdb_ErrDatabaseClosed \/
       (e <> buntdb_ErrNotFound /\
        exists j, min <= j <= max /\ buntdb.delete_fault F (log_key j) = Some e) \/
       buntdb.commit_fault F = Some e).
Proof. exact (DeleteRange_spec F fuel b min max). Qed.

Lemma DeleteRange_below_max_witness :
  exists b',
    BuntStore.DeleteRange buntdb.no_faults 4
      (buntdb.mkDB false
         (store_all ∅ [testRaftLog 1 "log1"; testRaftLog 3 "log3"; testRaftLog 4 "log4"]))
      1 3 = Some (b', None) /\
    buntdb.db_keys b' !! log_key 1 = None /\
    buntdb.db_keys b' !! log_key 3 = None /\
    buntdb.db_keys b' !! log_key 4 = Some (log_val (testRaftLog 4 "log4")).
Proof.
  destruct (DeleteRange_below_max buntdb.no_faults 4
              (buntdb.mkDB false
                 (store_all ∅ [testRaftLog 1 "log1"; testRaftLog 3 "log3";
                               testRaftLog 4 "log4"])) 1 3)
    as (b' & err & Heq & _ & Hok & _ & _); [lia | unfold maxUint64; lia | simpl; lia |].
  exists b'. injection Heq as <- <-. repeat split.
Defined.

(** X17. [DeleteRange(min, max)] with [max < min] deletes nothing and
    returns no error: the loop ends at its first test, and the store is left
    as it was (the store being open and the commit succeeding). *)
Theorem DeleteRange_empty_range (F : buntdb.Faults) (fuel : nat) (b : buntdb.DB) (min max : Z) :
  max < min ->
  buntdb.db_closed b = false ->
  buntdb.commit_fault F = None ->
  BuntStore.DeleteRange F (S fuel) b min max = Some (b, None).
Proof.
  intros Hlt Hc Hcommit. unfold BuntStore.DeleteRange, buntdb.Update.
  rewrite Hc. cbn [BuntStore.DeleteRange_loop].
  destruct (Z.leb_spec min max); [lia|]. cbn [mbind option_bind].
  rewrite Hcommit. destruct b as [closed keys]. cbn in Hc |- *. now subst.
Qed.

Lemma DeleteRange_empty_range_witness :
  BuntStore.DeleteRange buntdb.no_faults 1
    (buntdb.mkDB false (store_all ∅ [testRaftLog 1 "log1"])) 2 1
  = Some (buntdb.mkDB false (store_all ∅ [testRaftLog 1 "log1"]), None).
Proof.
  apply (DeleteRange_empty_range buntdb.no_faults 0
           (buntdb.mkDB false (store_all ∅ [testRaftLog 1 "log1"])) 2 1);
    [lia | reflexivity | reflexivity].
Defined.

Lemma DeleteRange_closed_flag (F : buntdb.Faults) (fuel : nat) (b b' : buntdb.DB)
    (min max : Z) (err : option error) :
  BuntStore.DeleteRange F fuel b min max = Some (b', err) ->
  buntdb.db_closed b' = buntdb.db_closed b.
Proof.
  unfold BuntStore.DeleteRange, buntdb.Update.
  destruct (buntdb.db_closed b) eqn:Hc; [now intros [= <- _]|].
  destruct (BuntStore.DeleteRange_loop F fuel (buntdb.db_keys b) min max)
    as [[tx' err']|]; [|discriminate].
  cbn [mbind option_bind]. destruct err'; [now intros [= <- _]|].
  destruct (buntdb.commit_fault F); [now intros [= <- _]|].
  now intros [= <- _].
Qed.

(** X18. After a successful [DeleteRange(min, max)] below the largest 64-bit
    value, the engine not failing on the keys of the range, the indices
    present in the log are exactly those that were present before and lie
    outside the range, and [GetLog] of every index outside the range returns
    what it returned before. *)
Theorem DeleteRange_indices (F : buntdb.Faults) (fuel : nat) (b b' : buntdb.DB) (min max : Z) :
  0 <= min <= max -> max < maxUint64 -> (Z.to_nat (max - min + 1) < fuel)%nat ->
  (forall j, min <= j <= max -> buntdb.delete_fault F (log_key j) = None) ->
  BuntStore.DeleteRange F fuel b min max = Some (b', None) ->
  (forall j, has_log b' j <-> has_log b j /\ ~ (min <= j <= max)) /\
  (forall j log, is_uint64 j -> ~ (min <= j <= max) ->
     BuntStore.GetLog F b' j log = BuntStore.GetLog F b j log).
Proof.
  intros Hmin Hmax Hfuel Hnf Hdel.
  pose proof (DeleteRange_closed_flag F fuel b b' min max None Hdel) as Hcl.
  destruct (DeleteRange_spec F fuel b min max Hmin Hmax Hfuel)
    as (b'' & err & Heq & _ & Hok & _ & _).
  rewrite Hdel in Heq. injection Heq as <- <-.
  destruct (Hok eq_refl) as [Hgone Hout].
  assert (Hrange : forall j, min <= j <= max -> is_uint64 j).
  { intros j Hj. unfold is_uint64, uint64_modulus, maxUint64 in *. lia. }
  assert (Hother : forall j, is_uint64 j -> ~ (min <= j <= max) ->
            buntdb.db_keys b' !! log_key j = buntdb.db_keys b !! log_key j).
  { intros j Hj Hnot. apply Hout. intros j' Hj' Heq.
    apply log_key_inj in Heq; [|exact Hj|now apply Hrange]. lia. }
  split.
  - intros j. unfold has_log. split.
    + intros [Hj Hs]. destruct (decide (min <= j <= max)) as [Hin|Hnot].
      * rewrite (Hgone j Hin (Hnf j Hin)) in Hs. now destruct Hs.
      * rewrite (Hother j Hj Hnot) in Hs. auto.
    + intros [[Hj Hs] Hnot]. split; [exact Hj|]. now rewrite (Hother j Hj Hnot).
  - intros j log Hj Hnot. rewrite !GetLog_eval, Hcl. unfold buntdb.Get.
    now rewrite (Hother j Hj Hnot).
Qed.

Lemma DeleteRange_indices_witness :
  has_log (buntdb.mkDB false
             (delete (log_key 2) (delete (log_key 1)
                (store_all ∅ [testRaftLog 1 "log1"; testRaftLog 2 "log2";
                              testRaftLog 3 "log3"])))) 3
  <-> has_log (buntdb.mkDB false
                 (store_all ∅ [testRaftLog 1 "log1"; testRaftLog 2 "log2";
                               testRaftLog 3 "log3"])) 3
      /\ ~ (1 <= 3 <= 2).
Proof.
  refine (proj1 (DeleteRange_indices buntdb.no_faults 3
                   (buntdb.mkDB false
                      (store_all ∅ [testRaftLog 1 "log1"; testRaftLog 2 "log2";
                                    testRaftLog 3 "log3"]))
                   _ 1 2 _ _ _ _ _) 3).
  - lia.
  - unfold maxUint64. lia.
  - simpl. lia.
  - reflexivity.
  - reflexivity.
Defined.

(** ** What the store holds *)

Lemma wf_store_empty : wf_store ∅.
Proof. intros key val Hk. rewrite lookup_empty in Hk. discriminate. Qed.

Lemma wf_store_wf_keys (tx : gmap string string) : wf_store tx -> wf_keys tx.
Proof.
  intros Hwf key [val Hk].
  destruct (Hwf key val Hk) as [(e & He & -> & _)|(k & ->)]; [left | right; eauto].
  exists (Index e). split; [apply He | reflexivity].
Qed.

Lemma wf_store_insert_log (tx : gmap string string) (e : Log) :
  valid_log e -> wf_store tx -> wf_store (<[log_key (Index e) := log_val e]> tx).
Proof.
  intros He Hwf key val Hk. apply lookup_insert_Some in Hk as [[<- <-]|[_ Hk]].
  - left. eauto.
  - now apply Hwf in Hk.
Qed.

Lemma wf_store_insert_conf (tx : gmap string string) (k : list byte) (val : string) :
  wf_store tx -> wf_store (<[conf_key k := val]> tx).
Proof.
  intros Hwf key val' Hk. apply lookup_insert_Some in Hk as [[<- <-]|[_ Hk]].
  - right. eauto.
  - now apply Hwf in Hk.
Qed.

Lemma wf_store_delete (tx : gmap string string) (key : string) :
  wf_store tx -> wf_store (delete key tx).
Proof.
  intros Hwf key' val Hk. apply lookup_delete_Some in Hk as [_ Hk]. now apply Hwf in Hk.
Qed.

Lemma wf_store_store_all (logs : list Log) (tx : gmap string string) :
  Forall valid_log logs -> wf_store tx -> wf_store (store_all tx logs).
Proof.
  intros Hl. revert tx. induction Hl as [|e logs He Hl IH]; intros tx Hwf; [exact Hwf|].
  cbn [store_all foldl]. apply IH. now apply wf_store_insert_log.
Qed.

Lemma DeleteRange_loop_wf_store (F : buntdb.Faults) (fuel : nat) :
  forall (tx tx' : gmap string string) (i max : Z) (err : option error),
    wf_store tx ->
    BuntStore.DeleteRange_loop F fuel tx i max = Some (tx', err) ->
    wf_store tx'.
Proof.
  induction fuel as [|fuel IH]; intros tx tx' i max err Hwf; [discriminate|].
  cbn [BuntStore.DeleteRange_loop]. destruct (i <=? max); [|now intros [= <- _]].
  pose proof (Delete_cases F tx (BuntStore.dbLogs +:+ DecimalKeys.uint64ToString i)) as Hd.
  destruct (buntdb.Delete F tx _) as [tx1 [e|]].
  - destruct Hd as [-> _]. destruct (bool_decide (e ≠ buntdb_ErrNotFound)).
    + now intros [= <- _].
    + now apply IH.
  - destruct Hd as (_ & _ & ->). apply IH. now apply wf_store_delete.
Qed.

Lemma decoded_log_val (e : Log) : valid_log e -> decoded (log_val e) = e.
Proof.
  intros [Hi Ht]. unfold decoded, log_val.
  rewrite encodeLog_layout, list_byte_of_string_of_list_byte.
  rewrite decodeLog_layout by assumption. now destruct e.
Qed.

(** X19. The store keeps its shape: if every value under a log key is the
    encoding of an entry with the index of its key, and every other key is a
    metadata key, then the same holds after [StoreLogs] of entries with 64-bit
    fields, after [Set] and after [DeleteRange], whatever they return. On
    such a store, the entry [GetLog(idx)] returns has the index [idx]. *)
Theorem store_shape_invariant (F : buntdb.Faults) (b : buntdb.DB) :
  wf_store (buntdb.db_keys b) ->
  (forall logs b' err,
     Forall valid_log logs ->
     BuntStore.StoreLogs F b logs = Some (b', err) -> wf_store (buntdb.db_keys b')) /\
  (forall k v b' err,
     BuntStore.Set_ F b k v = Some (b', err) -> wf_store (buntdb.db_keys b')) /\
  (forall fuel min max b' err,
     BuntStore.DeleteRange F fuel b min max = Some (b', err) ->
     wf_store (buntdb.db_keys b')) /\
  (forall idx log log',
     is_uint64 idx ->
     BuntStore.GetLog F b idx log = Some (log', None) ->
     Index log' = idx /\ valid_log log').
Proof.
  intros Hwf. split; [|split; [|split]].
  - intros logs b' err Hl. rewrite StoreLogs_eval.
    destruct (buntdb.db_closed b); [now intros [= <- _]|].
    destruct (first_set_fault F logs); [now intros [= <- _]|].
    destruct (buntdb.commit_fault F); [now intros [= <- _]|].
    intros [= <- _]. cbn [buntdb.db_keys]. now apply wf_store_store_all.
  - intros k v b' err. rewrite Set_eval.
    destruct (buntdb.db_closed b); [now intros [= <- _]|].
    destruct (buntdb.set_fault F _ _); [now intros [= <- _]|].
    destruct (buntdb.commit_fault F); [now intros [= <- _]|].
    intros [= <- _]. cbn [buntdb.db_keys]. now apply wf_store_insert_conf.
  - intros fuel min max b' err. unfold BuntStore.DeleteRange, buntdb.Update.
    destruct (buntdb.db_closed b); [now intros [= <- _]|].
    destruct (BuntStore.DeleteRange_loop F fuel (buntdb.db_keys b) min max)
      as [[tx' err']|] eqn:Hloop; [|discriminate].
    cbn [mbind option_bind]. destruct err'; [now intros [= <- _]|].
    destruct (buntdb.commit_fault F); [now intros [= <- _]|].
    intros [= <- _]. cbn [buntdb.db_keys].
    now apply (DeleteRange_loop_wf_store F fuel _ _ _ _ _ Hwf Hloop).
  - intros idx log log' Hidx. rewrite GetLog_eval.
    destruct (buntdb.db_closed b); [discriminate|].
    unfold buntdb.Get. destruct (buntdb.get_fault F (log_key idx)) as [e|].
    { destruct (bool_decide (e = buntdb_ErrNotFound)); discriminate. }
    destruct (buntdb.db_keys b !! log_key idx) as [val|] eqn:Hk; [|discriminate].
    destruct (Hwf _ _ Hk) as [(e & He & Hkey & ->)|(k & Hkey)].
    + apply log_key_inj in Hkey; [|exact Hidx|apply He]. subst idx.
      unfold log_val. rewrite encodeLog_layout, list_byte_of_string_of_list_byte.
      destruct He as [Hi Ht]. rewrite decodeLog_layout by assumption.
      intros [= <-]. cbn [Index]. split; [reflexivity | now split].
    + now apply log_key_conf_key in Hkey.
Qed.

Lemma store_shape_invariant_witness :
  Index (testRaftLog 2 "log2") = 2 /\ valid_log (testRaftLog 2 "log2").
Proof.
  assert (Hwf : wf_store (buntdb.db_keys
            (buntdb.mkDB false (store_all ∅ [testRaftLog 1 "log1"; testRaftLog 2 "log2"])))).
  { cbn [buntdb.db_keys]. apply wf_store_store_all; [|exact wf_store_empty].
    repeat constructor; simpl; try lia; unfold uint64_modulus; lia. }
  apply (proj2 (proj2 (proj2 (store_shape_invariant buntdb.no_faults _ Hwf)))
           2 zero_log (testRaftLog 2 "log2")).
  - apply is_uint64_small. lia.
  - reflexivity.
Defined.

(** ** AscendLogGreaterOrEqual *)

Lemma StronglySorted_filter {A} (R : relation A) (P : A -> Prop)
    `{!forall x, Decision (P x)} (l : list A) :
  StronglySorted R l -> StronglySorted R (filter P l).
Proof.
  induction 1 as [|x l Hl IH Hx]; [constructor|].
  rewrite filter_cons. destruct (decide (P x)); [|exact IH].
  constructor; [exact IH|].
  rewrite Forall_forall in Hx |- *. intros y Hy.
  apply list_elem_of_filter in Hy as [_ Hy]. now apply Hx.
Qed.

Lemma StronglySorted_fmap_elem {A B} (R : relation A) (R' : relation B) (f : A -> B)
    (l : list A) :
  StronglySorted R l ->
  (forall a b, a ∈ l -> b ∈ l -> R a b -> R' (f a) (f b)) ->
  StronglySorted R' (f <$> l).
Proof.
  induction 1 as [|x l Hl IH Hx]; intros Hf; [constructor|].
  rewrite fmap_cons. constructor.
  - apply IH. intros a b Ha Hb. apply Hf; now right.
  - rewrite Forall_fmap, Forall_forall. rewrite Forall_forall in Hx.
    intros y Hy. apply Hf; [left | now right | now apply Hx].
Qed.

(** The keys index knows each key once. *)
Lemma ascending_strict (tx : gmap string string) :
  StronglySorted (fun a b => buntdb.item_le a b /\ a.1 <> b.1) (buntdb.ascending tx).
Proof.
  assert (Hnd : NoDup ((buntdb.ascending tx).*1)).
  { unfold buntdb.ascending. rewrite merge_sort_Permutation.
    apply NoDup_fst_map_to_list. }
  pose proof (ascending_sorted tx) as Hs.
  induction Hs as [|x l Hl IH Hx]; [constructor|].
  rewrite fmap_cons in Hnd. apply NoDup_cons in Hnd as [Hnotin Hnd].
  constructor; [now apply IH|].
  rewrite Forall_forall in Hx |- *. intros y Hy. split; [now apply Hx|].
  intros Heq. apply Hnotin. rewrite Heq. now apply list_elem_of_fmap_2.
Qed.

Lemma log_key_has_prefix (i : Z) : HasPrefix (log_key i) BuntStore.dbLogs = true.
Proof.
  unfold HasPrefix, log_key. destruct (DecimalKeys.uint64ToString i); reflexivity.
Qed.

Lemma conf_key_no_prefix (k : list byte) : HasPrefix (conf_key k) BuntStore.dbLogs = false.
Proof. reflexivity. Qed.

Lemma conf_key_before_log_key (i : Z) (k : list byte) :
  string_le (log_key i) (conf_key k) = false.
Proof. reflexivity. Qed.

Lemma decodeLog_log_val (e in_ : Log) :
  valid_log e -> decodeLog (list_byte_of_string (log_val e)) in_ = Some (e, None).
Proof.
  intros [Hi Ht]. unfold log_val.
  rewrite encodeLog_layout, list_byte_of_string_of_list_byte.
  rewrite decodeLog_layout by assumption. now destruct e.
Qed.

(** The items of the scan from the key of [pivot] on a store of the right
    shape are entries with an index from [pivot] on. *)
Lemma range_ge_log_key_items (tx : gmap string string) (pivot : Z) (kv : string * string) :
  wf_store tx -> is_uint64 pivot ->
  kv ∈ buntdb.range_ge tx (log_key pivot) ->
  exists e, valid_log e /\ kv = (log_key (Index e), log_val e) /\ pivot <= Index e /\
            tx !! log_key (Index e) = Some (log_val e).
Proof.
  intros Hwf Hp Hin. unfold buntdb.range_ge in Hin.
  apply list_elem_of_filter in Hin as [Hle Hin]. destruct kv as [key val].
  apply elem_of_ascending in Hin. cbn [fst] in Hle.
  destruct (Hwf key val Hin) as [(e & He & -> & ->)|(k & ->)].
  - exists e. split; [exact He|]. split; [reflexivity|]. split; [|exact Hin].
    apply log_key_le; [exact Hp | apply He | now apply Is_true_true].
  - rewrite conf_key_before_log_key in Hle. destruct Hle.
Qed.

Lemma range_ge_log_key_elem (tx : gmap string string) (pivot : Z) (e : Log) :
  is_uint64 pivot -> valid_log e -> pivot <= Index e ->
  tx !! log_key (Index e) = Some (log_val e) ->
  (log_key (Index e), log_val e) ∈ buntdb.range_ge tx (log_key pivot).
Proof.
  intros Hp He Hle Hk. unfold buntdb.range_ge. apply list_elem_of_filter.
  split; [|now apply elem_of_ascending].
  cbn [fst]. apply Is_true_true. unfold string_le, String.leb.
  rewrite log_key_compare by (exact Hp || apply He).
  destruct (Z.compare_spec pivot (Index e)); [reflexivity | reflexivity | lia].
Qed.

(** On items that are entries, the visitor of the engine decodes each one
    and hands it to the visitor of the caller, until that returns false. *)
Lemma iterate_entries {S} (iter : S -> Log -> S * bool)
    (items : list (string * string)) (s : S) (ierr : option error) :
  Forall (fun kv => exists e, valid_log e /\ kv = (log_key (Index e), log_val e)) items ->
  buntdb.iterate
    (fun '(s, ierr) key val =>
       if negb (HasPrefix key BuntStore.dbLogs) then Some ((s, ierr), false)
       else
         '(log, err) ← decodeLog (list_byte_of_string val) zero_log;
         match err with
         | Some e => Some ((s, Some e), false)
         | None => let '(s, continue) := iter s log in Some ((s, ierr), continue)
         end) items (s, ierr)
  = Some (visit iter ((fun kv => decoded kv.2) <$> items) s, ierr).
Proof.
  intros Hgood. revert s. induction Hgood as [|kv items (e & He & ->) Hgood IH]; intros s.
  - reflexivity.
  - cbn [buntdb.iterate fmap list_fmap visit snd].
    rewrite log_key_has_prefix. cbn [negb].
    rewrite decodeLog_log_val by exact He. cbn [mbind option_bind].
    rewrite decoded_log_val by exact He.
    destruct (iter s e) as [s' [|]]; cbn [mbind option_bind]; [apply IH | reflexivity].
Qed.

(** X20. On an open store of the right shape, [AscendLogGreaterOrEqual(pivot,
    iter)] hands to [iter] exactly the stored entries with an index from
    [pivot] on, each once, in ascending order of index, until [iter] returns
    false, and returns no error; metadata is never visited. *)
Theorem AscendLogGreaterOrEqual_visits (b : buntdb.DB) (pivot : Z) :
  buntdb.db_closed b = false -> wf_store (buntdb.db_keys b) -> is_uint64 pivot ->
  exists entries : list Log,
    (forall (S : Type) (iter : S -> Log -> S * bool) (s : S),
       BuntStore.AscendLogGreaterOrEqual b pivot iter s
       = Some (visit iter entries s, None)) /\
    StronglySorted (fun e1 e2 => Index e1 < Index e2) entries /\
    (forall e, e ∈ entries <->
       valid_log e /\ pivot <= Index e /\
       buntdb.db_keys b !! log_key (Index e) = Some (log_val e)).
Proof.
  intros Hc Hwf Hp.
  set (items := buntdb.range_ge (buntdb.db_keys b) (log_key pivot)).
  assert (Hitems : forall kv, kv ∈ items ->
            exists e, valid_log e /\ kv = (log_key (Index e), log_val e) /\
                      pivot <= Index e /\
                      buntdb.db_keys b !! log_key (Index e) = Some (log_val e)).
  { intros kv Hin. now apply range_ge_log_key_items. }
  exists ((fun kv => decoded kv.2) <$> items). split; [|split].
  - intros S iter s.
    unfold BuntStore.AscendLogGreaterOrEqual, buntdb.View, buntdb.AscendGreaterOrEqual.
    rewrite Hc.
    change (BuntStore.dbLogs +:+ DecimalKeys.uint64ToString pivot)%string
      with (log_key pivot).
    fold items. rewrite iterate_entries; [reflexivity|].
    apply Forall_forall. intros kv Hin.
    destruct (Hitems kv Hin) as (e & He & Hkv & _). eauto.
  - apply (StronglySorted_fmap_elem (fun a b => buntdb.item_le a b /\ a.1 <> b.1)).
    + apply StronglySorted_filter, ascending_strict.
    + intros a c Ha Hc' [Hle Hne].
      destruct (Hitems a Ha) as (ea & Hea & -> & _).
      destruct (Hitems c Hc') as (ec & Hec & -> & _).
      cbn [snd fst] in *. rewrite !decoded_log_val by assumption.
      unfold buntdb.item_le in Hle. cbn [fst] in Hle. apply Is_true_true in Hle.
      apply log_key_le in Hle; [|apply Hea|apply Hec].
      assert (Index ea <> Index ec) by (intros Heq; apply Hne; now rewrite Heq).
      lia.
  - intros e. rewrite list_elem_of_fmap. split.
    + intros (kv & -> & Hin). destruct (Hitems kv Hin) as (e & He & -> & Hle & Hk).
      cbn [snd]. rewrite decoded_log_val by exact He. auto.
    + intros (He & Hle & Hk). exists (log_key (Index e), log_val e). split.
      * cbn [snd]. now rewrite decoded_log_val.
      * now apply range_ge_log_key_elem.
Qed.

Lemma AscendLogGreaterOrEqual_visits_witness :
  exists entries : list Log,
    (forall (S : Type) (iter : S -> Log -> S * bool) (s : S),
       BuntStore.AscendLogGreaterOrEqual
         (buntdb.mkDB false
            (store_all ∅ [testRaftLog 3 "log3"; testRaftLog 1 "log1"; testRaftLog 2 "log2"]))
         2 iter s
       = Some (visit iter entries s, None)) /\
    StronglySorted (fun e1 e2 => Index e1 < Index e2) entries /\
    (forall e, e ∈ entries <->
       valid_log e /\ 2 <= Index e /\
       store_all ∅ [testRaftLog 3 "log3"; testRaftLog 1 "log1"; testRaftLog 2 "log2"]
         !! log_key (Index e) = Some (log_val e)).
Proof.
  apply (AscendLogGreaterOrEqual_visits
           (buntdb.mkDB false
              (store_all ∅ [testRaftLog 3 "log3"; testRaftLog 1 "log1"; testRaftLog 2 "log2"]))
           2).
  - reflexivity.
  - cbn [buntdb.db_keys]. apply wf_store_store_all; [|exact wf_store_empty].
    repeat constructor; simpl; try lia; unfold uint64_modulus; lia.
  - apply is_uint64_small. lia.
Defined.

(** The scan from a key that is present starts at that key. *)
Lemma range_ge_head (tx : gmap string string) (key val : string) :
  tx !! key = Some val -> exists rest, buntdb.range_ge tx key = (key, val) :: rest.
Proof.
  intros Hk. unfold buntdb.range_ge.
  destruct (filter _ _) as [|[key' val'] rest] eqn:Hf.
  - rewrite filter_nil_iff in Hf. destruct (Hf (key, val)).
    + now apply elem_of_ascending.
    + cbn [fst]. apply Is_true_true, string_le_refl.
  - exists rest.
    apply (filter_sorted_head buntdb.item_le) in Hf as (Hin & HP & Hmin);
      [|apply ascending_sorted].
    cbn [fst] in HP. apply Is_true_true in HP.
    assert (Hle : string_le key' key = true).
    { apply Is_true_true. apply (Hmin (key, val)); [now apply elem_of_ascending|].
      cbn [fst]. apply Is_true_true, string_le_refl. }
    assert (key' = key) as -> by (apply String.leb_antisym; assumption).
    apply elem_of_ascending in Hin. congruence.
Qed.

(** X21. When the value stored under the key of [pivot] has fewer than 17
    bytes, [AscendLogGreaterOrEqual(pivot, iter)] returns the invalid-buffer
    error of the codec and never calls [iter]. *)
Theorem AscendLogGreaterOrEqual_invalid_buffer {S} (b : buntdb.DB) (pivot : Z) (val : string)
    (iter : S -> Log -> S * bool) (s : S) :
  buntdb.db_closed b = false ->
  buntdb.db_keys b !! log_key pivot = Some val ->
  (String.length val < 17)%nat ->
  BuntStore.AscendLogGreaterOrEqual b pivot iter s
  = Some (s, Some (errors_New "invalid buffer")).
Proof.
  intros Hc Hk Hshort.
  unfold BuntStore.AscendLogGreaterOrEqual, buntdb.View, buntdb.AscendGreaterOrEqual.
  rewrite Hc.
  change (BuntStore.dbLogs +:+ DecimalKeys.uint64ToString pivot)%string with (log_key pivot).
  destruct (range_ge_head _ _ _ Hk) as [rest ->].
  cbn [buntdb.iterate]. rewrite log_key_has_prefix. cbn [negb].
  destruct (decodeLog_error_cases (list_byte_of_string val) zero_log)
    as [(_ & ->)|(Hlen & _)].
  - reflexivity.
  - rewrite length_list_byte_of_string in Hlen. lia.
Qed.

Lemma AscendLogGreaterOrEqual_invalid_buffer_witness :
  BuntStore.AscendLogGreaterOrEqual
    (buntdb.mkDB false (<[log_key 2 := "short"%string]> (store_all ∅ [testRaftLog 3 "log3"])))
    2 (fun (n : nat) (_ : Log) => (S n, true)) 0%nat
  = Some (0%nat, Some (errors_New "invalid buffer")).
Proof.
  apply (AscendLogGreaterOrEqual_invalid_buffer
           (buntdb.mkDB false
              (<[log_key 2 := "short"%string]> (store_all ∅ [testRaftLog 3 "log3"])))
           2 "short").
  - reflexivity.
  - reflexivity.
  - simpl. lia.
Defined.

(** ** FirstIndex and LastIndex of the snapshot with levels *)

(** A visitor that skips the items without the log prefix and stops at the
    first one with it sees the first item with the prefix. *)
Lemma iterate_skip (items : list (string * string)) (num : string) :
  buntdb.iterate
    (fun num key val =>
       if HasPrefix key LevelStore.dbLogs then
         num ← string_from (String.length LevelStore.dbLogs) key;
         Some (num, false)
       else Some (num, true)) items num
  = match filter (fun kv => HasPrefix kv.1 BuntStore.dbLogs) items with
    | [] => Some num
    | (key, _) :: _ => string_from (String.length BuntStore.dbLogs) key
    end.
Proof.
  induction items as [|[key val] items IH]; [reflexivity|].
  cbn [buntdb.iterate]. rewrite filter_cons. cbn [fst].
  change LevelStore.dbLogs with BuntStore.dbLogs in *.
  destruct (HasPrefix key BuntStore.dbLogs) eqn:Hp.
  - rewrite decide_True by exact I.
    destruct (string_from _ key); reflexivity.
  - rewrite decide_False by (intros H; exact H). exact IH.
Qed.

Lemma LevelStore_FirstIndex_eval (b : buntdb.DB) :
  LevelStore.FirstIndex b =
    if buntdb.db_closed b then Some (0, Some buntdb_ErrDatabaseClosed)
    else index_of_first
           (filter (fun kv => HasPrefix kv.1 BuntStore.dbLogs)
                   (buntdb.ascending (buntdb.db_keys b))).
Proof.
  unfold LevelStore.FirstIndex, buntdb.View, buntdb.Ascend.
  destruct (buntdb.db_closed b); [reflexivity|].
  rewrite iterate_skip.
  destruct (filter _ _) as [|[key val] items]; [reflexivity|].
  cbn [index_of_first mbind option_bind].
  destruct (string_from _ key) as [snum|]; [|reflexivity].
  cbn [mbind option_bind orb]. rewrite bool_decide_eq_false_2 by (intros H; now apply H).
  reflexivity.
Qed.

Lemma LevelStore_LastIndex_eval (b : buntdb.DB) :
  LevelStore.LastIndex b =
    if buntdb.db_closed b then Some (0, Some buntdb_ErrDatabaseClosed)
    else index_of_first
           (filter (fun kv => HasPrefix kv.1 BuntStore.dbLogs)
                   (reverse (buntdb.ascending (buntdb.db_keys b)))).
Proof.
  unfold LevelStore.LastIndex, buntdb.View, buntdb.Descend.
  destruct (buntdb.db_closed b); [reflexivity|].
  rewrite iterate_skip.
  destruct (filter _ _) as [|[key val] items]; [reflexivity|].
  cbn [index_of_first mbind option_bind].
  destruct (string_from _ key) as [snum|]; [|reflexivity].
  cbn [mbind option_bind orb]. rewrite bool_decide_eq_false_2 by (intros H; now apply H).
  reflexivity.
Qed.

(** The first key with the log prefix, going up or down, is the key of the
    smallest or the largest index. *)
Lemma prefix_scan_first (b : buntdb.DB) (R : relation (string * string))
    (items : list (string * string)) (le : Z -> Z -> Prop) :
  wf_keys (buntdb.db_keys b) ->
  Reflexive R ->
  StronglySorted R items ->
  (forall kv, kv ∈ items <-> buntdb.db_keys b !! kv.1 = Some kv.2) ->
  (forall i j v w, is_uint64 i -> is_uint64 j ->
                   R (log_key i, v) (log_key j, w) -> le i j) ->
  match filter (fun kv => HasPrefix kv.1 BuntStore.dbLogs) items with
  | [] => forall i, ~ has_log b i
  | (key, _) :: _ =>
      exists m, key = log_key m /\ has_log b m /\ forall j, has_log b j -> le m j
  end.
Proof.
  intros Hwf Hrefl Hsorted Hitems Hle.
  destruct (filter _ _) as [|[key val] rest] eqn:Hf.
  - intros i [Hi [v Hv]]. rewrite filter_nil_iff in Hf.
    apply (Hf (log_key i, v)); [now apply Hitems|].
    cbn [fst]. rewrite log_key_has_prefix. exact I.
  - apply (filter_sorted_head R) in Hf as (Hin & HP & Hmin); [|exact Hsorted].
    apply Hitems in Hin. cbn [fst snd] in Hin, HP.
    destruct (Hwf key) as [(m & Hm & ->)|(k & ->)]; [eauto| |].
    + exists m. split; [reflexivity|]. split; [split; eauto|].
      intros j [Hj [v Hv]]. apply (Hle m j val v Hm Hj).
      apply Hmin; [now apply Hitems|].
      cbn [fst]. rewrite log_key_has_prefix. exact I.
    + rewrite conf_key_no_prefix in HP. destruct HP.
Qed.

(** X22. On an open store holding only the store's own keys, [FirstIndex] and
    [LastIndex] of the snapshot with levels, which walk over every key and
    skip those without the log prefix, return what [FirstIndex] and
    [LastIndex] of [bunt_store.go] return with their bounded scans. *)
Theorem LevelStore_FirstIndex_LastIndex_agree (b : buntdb.DB) :
  buntdb.db_closed b = false -> wf_keys (buntdb.db_keys b) ->
  LevelStore.FirstIndex b = BuntStore.FirstIndex b /\
  LevelStore.LastIndex b = BuntStore.LastIndex b.
Proof.
  intros Hc Hwf.
  rewrite LevelStore_FirstIndex_eval, LevelStore_LastIndex_eval, Hc.
  rewrite FirstIndex_eval, LastIndex_eval, Hc.
  pose proof (range_ge_first b Hwf) as Hlo.
  pose proof (range_gt_desc_first b Hwf) as Hhi.
  assert (Hlo' := prefix_scan_first b buntdb.item_le
                    (buntdb.ascending (buntdb.db_keys b)) Z.le Hwf).
  assert (Hhi' := prefix_scan_first b (flip buntdb.item_le)
                    (reverse (buntdb.ascending (buntdb.db_keys b))) Z.ge Hwf).
  split.
  - clear Hhi Hhi'. specialize (Hlo' item_le_refl (ascending_sorted _)).
    assert (H1 : forall kv, kv ∈ buntdb.ascending (buntdb.db_keys b)
                            <-> buntdb.db_keys b !! kv.1 = Some kv.2)
      by (intros [key val]; apply elem_of_ascending).
    assert (H2 : forall i j (v w : string), is_uint64 i -> is_uint64 j ->
                   buntdb.item_le (log_key i, v) (log_key j, w) -> i <= j).
    { intros i j v w Hi Hj Hle. unfold buntdb.item_le in Hle. cbn [fst] in Hle.
      apply Is_true_true in Hle. now apply log_key_le in Hle. }
    specialize (Hlo' H1 H2).
    destruct (filter _ _) as [|[k1 v1] r1];
      destruct (buntdb.range_ge _ _) as [|[k2 v2] r2].
    + reflexivity.
    + destruct Hlo as (m & _ & Hm & _). destruct (Hlo' m Hm).
    + destruct Hlo' as (m & _ & Hm & _). destruct (Hlo m Hm).
    + destruct Hlo as (m2 & -> & Hm2 & Hmin2). destruct Hlo' as (m1 & -> & Hm1 & Hmin1).
      pose proof (Hmin2 m1 Hm1). pose proof (Hmin1 m2 Hm2).
      assert (m1 = m2) as -> by lia.
      rewrite !index_of_first_log_key by apply Hm2. reflexivity.
  - clear Hlo Hlo'.
    assert (Hr : Reflexive (flip buntdb.item_le)) by (intros x; apply item_le_refl).
    specialize (Hhi' Hr (StronglySorted_reverse _ _ (ascending_sorted _))).
    assert (H1 : forall kv, kv ∈ reverse (buntdb.ascending (buntdb.db_keys b))
                            <-> buntdb.db_keys b !! kv.1 = Some kv.2)
      by (intros [key val]; rewrite elem_of_reverse; apply elem_of_ascending).
    assert (H2 : forall i j (v w : string), is_uint64 i -> is_uint64 j ->
                   flip buntdb.item_le (log_key i, v) (log_key j, w) -> i >= j).
    { intros i j v w Hi Hj Hle. unfold flip, buntdb.item_le in Hle. cbn [fst] in Hle.
      apply Is_true_true in Hle. apply log_key_le in Hle; [lia | assumption..]. }
    specialize (Hhi' H1 H2).
    destruct (filter _ _) as [|[k1 v1] r1];
      destruct (buntdb.range_gt_desc _ _) as [|[k2 v2] r2].
    + reflexivity.
    + destruct Hhi as (m & _ & Hm & _). destruct (Hhi' m Hm).
    + destruct Hhi' as (m & _ & Hm & _). destruct (Hhi m Hm).
    + destruct Hhi as (m2 & -> & Hm2 & Hmax2). destruct Hhi' as (m1 & -> & Hm1 & Hmax1).
      pose proof (Hmax2 m1 Hm1). pose proof (Hmax1 m2 Hm2).
      assert (m1 = m2) as -> by lia.
      rewrite !index_of_first_log_key by apply Hm2. reflexivity.
Qed.

Lemma LevelStore_FirstIndex_LastIndex_agree_witness :
  LevelStore.FirstIndex
    (buntdb.mkDB false
       (<[conf_key (list_byte_of_string "a") := "1"%string]>
          (store_all ∅ [testRaftLog 2 "log2"; testRaftLog 5 "log5"])))
  = BuntStore.FirstIndex
      (buntdb.mkDB false
         (<[conf_key (list_byte_of_string "a") := "1"%string]>
            (store_all ∅ [testRaftLog 2 "log2"; testRaftLog 5 "log5"]))) /\
  LevelStore.LastIndex
    (buntdb.mkDB false
       (<[conf_key (list_byte_of_string "a") := "1"%string]>
          (store_all ∅ [testRaftLog 2 "log2"; testRaftLog 5 "log5"])))
  = BuntStore.LastIndex
      (buntdb.mkDB false
         (<[conf_key (list_byte_of_string "a") := "1"%string]>
            (store_all ∅ [testRaftLog 2 "log2"; testRaftLog 5 "log5"]))).
Proof.
  apply (LevelStore_FirstIndex_LastIndex_agree
           (buntdb.mkDB false
              (<[conf_key (list_byte_of_string "a") := "1"%string]>
                 (store_all ∅ [testRaftLog 2 "log2"; testRaftLog 5 "log5"])))).
  - reflexivity.
  - cbn [buntdb.db_keys]. apply wf_keys_insert_conf, wf_keys_store_all; [|exact wf_keys_empty].
    repeat constructor; simpl; try lia; unfold uint64_modulus; lia.
Defined.

(** ** Log operations and metadata operations do not interfere *)

(** [FirstIndex] and [LastIndex] depend on the indices present only. *)
Lemma FirstIndex_LastIndex_determined (b1 b2 : buntdb.DB) :
  buntdb.db_closed b1 = buntdb.db_closed b2 ->
  wf_keys (buntdb.db_keys b1) -> wf_keys (buntdb.db_keys b2) ->
  (forall j, has_log b1 j <-> has_log b2 j) ->
  BuntStore.FirstIndex b1 = BuntStore.FirstIndex b2 /\
  BuntStore.LastIndex b1 = BuntStore.LastIndex b2.
Proof.
  intros Hcl Hwf1 Hwf2 Hsame. rewrite !FirstIndex_eval, !LastIndex_eval, Hcl.
  destruct (buntdb.db_closed b2); [split; reflexivity|].
  pose proof (range_ge_first b1 Hwf1) as Hlo1.
  pose proof (range_ge_first b2 Hwf2) as Hlo2.
  pose proof (range_gt_desc_first b1 Hwf1) as Hhi1.
  pose proof (range_gt_desc_first b2 Hwf2) as Hhi2.
  split.
  - destruct (buntdb.range_ge (buntdb.db_keys b1) _) as [|[k1 v1] r1];
      destruct (buntdb.range_ge (buntdb.db_keys b2) _) as [|[k2 v2] r2].
    + reflexivity.
    + destruct Hlo2 as (m & _ & Hm & _). apply Hsame in Hm. destruct (Hlo1 m Hm).
    + destruct Hlo1 as (m & _ & Hm & _). apply Hsame in Hm. destruct (Hlo2 m Hm).
    + destruct Hlo1 as (m1 & -> & Hm1 & Hmin1). destruct Hlo2 as (m2 & -> & Hm2 & Hmin2).
      pose proof (Hmin1 m2 (proj2 (Hsame m2) Hm2)).
      pose proof (Hmin2 m1 (proj1 (Hsame m1) Hm1)).
      assert (m1 = m2) as -> by lia.
      rewrite !index_of_first_log_key by apply Hm2. reflexivity.
  - destruct (buntdb.range_gt_desc (buntdb.db_keys b1) _) as [|[k1 v1] r1];
      destruct (buntdb.range_gt_desc (buntdb.db_keys b2) _) as [|[k2 v2] r2].
    + reflexivity.
    + destruct Hhi2 as (m & _ & Hm & _). apply Hsame in Hm. destruct (Hhi1 m Hm).
    + destruct Hhi1 as (m & _ & Hm & _). apply Hsame in Hm. destruct (Hhi2 m Hm).
    + destruct Hhi1 as (m1 & -> & Hm1 & Hmax1). destruct Hhi2 as (m2 & -> & Hm2 & Hmax2).
      pose proof (Hmax1 m2 (proj2 (Hsame m2) Hm2)).
      pose proof (Hmax2 m1 (proj1 (Hsame m1) Hm1)).
      assert (m1 = m2) as -> by lia.
      rewrite !index_of_first_log_key by apply Hm2. reflexivity.
Qed.

(** X23. [Set] never changes what [FirstIndex] and [LastIndex] return, on a
    store holding only the store's own keys: writing metadata does not move
    the bounds of the log, whatever [Set] itself returns. *)
Theorem Set_keeps_FirstIndex_LastIndex (F : buntdb.Faults) (b b' : buntdb.DB)
    (k v : list byte) (err : option error) :
  wf_keys (buntdb.db_keys b) ->
  BuntStore.Set_ F b k v = Some (b', err) ->
  BuntStore.FirstIndex b' = BuntStore.FirstIndex b /\
  BuntStore.LastIndex b' = BuntStore.LastIndex b.
Proof.
  intros Hwf Hset. pose proof (Set_wf F b b' k v err Hwf Hset) as Hwf'.
  rewrite Set_eval in Hset.
  destruct (buntdb.db_closed b) eqn:Hc; [injection Hset as <- _; split; reflexivity|].
  destruct (buntdb.set_fault F _ _); [injection Hset as <- _; split; reflexivity|].
  destruct (buntdb.commit_fault F); [injection Hset as <- _; split; reflexivity|].
  injection Hset as <- _.
  apply FirstIndex_LastIndex_determined; [now rewrite Hc | exact Hwf' | exact Hwf |].
  intros j. unfold has_log. cbn [buntdb.db_keys].
  rewrite lookup_insert_ne; [reflexivity|].
  intros Heq. symmetry in Heq. now apply log_key_conf_key in Heq.
Qed.

Lemma Set_keeps_FirstIndex_LastIndex_witness :
  BuntStore.FirstIndex
    (buntdb.mkDB false
       (<[conf_key (list_byte_of_string "a") := "1"%string]>
          (store_all ∅ [testRaftLog 2 "log2"; testRaftLog 5 "log5"])))
  = BuntStore.FirstIndex
      (buntdb.mkDB false (store_all ∅ [testRaftLog 2 "log2"; testRaftLog 5 "log5"])) /\
  BuntStore.LastIndex
    (buntdb.mkDB false
       (<[conf_key (list_byte_of_string "a") := "1"%string]>
          (store_all ∅ [testRaftLog 2 "log2"; testRaftLog 5 "log5"])))
  = BuntStore.LastIndex
      (buntdb.mkDB false (store_all ∅ [testRaftLog 2 "log2"; testRaftLog 5 "log5"])).
Proof.
  apply (Set_keeps_FirstIndex_LastIndex buntdb.no_faults
           (buntdb.mkDB false (store_all ∅ [testRaftLog 2 "log2"; testRaftLog 5 "log5"]))
           _ (list_byte_of_string "a") (list_byte_of_string "1") None).
  - cbn [buntdb.db_keys]. apply wf_keys_store_all; [|exact wf_keys_empty].
    repeat constructor; simpl; try lia; unfold uint64_modulus; lia.
  - reflexivity.
Defined.

Lemma DeleteRange_loop_conf (F : buntdb.Faults) (fuel : nat) (k : list byte) :
  forall (tx tx' : gmap string string) (i max : Z) (err : option error),
    BuntStore.DeleteRange_loop F fuel tx i max = Some (tx', err) ->
    tx' !! conf_key k = tx !! conf_key k.
Proof.
  induction fuel as [|fuel IH]; intros tx tx' i max err; [discriminate|].
  cbn [BuntStore.DeleteRange_loop]. destruct (i <=? max); [|now intros [= <- _]].
  change (BuntStore.dbLogs +:+ DecimalKeys.uint64ToString i)%string with (log_key i).
  pose proof (Delete_cases F tx (log_key i)) as Hd.
  destruct (buntdb.Delete F tx (log_key i)) as [tx1 [e|]].
  - destruct Hd as [-> _]. destruct (bool_decide (e ≠ buntdb_ErrNotFound)).
    + now intros [= <- _].
    + apply IH.
  - destruct Hd as (_ & _ & ->). intros Hloop. rewrite (IH _ _ _ _ _ Hloop).
    apply lookup_delete_ne. apply log_key_conf_key.
Qed.

(** X24. The log operations never touch the metadata: whatever [StoreLogs]
    and [DeleteRange] return, for whatever entries and bounds, [Get] of every
    key returns afterwards what it returned before. *)
Theorem log_writes_keep_metadata (F : buntdb.Faults) (b : buntdb.DB) :
  (forall logs b' err k,
     BuntStore.StoreLogs F b logs = Some (b', err) ->
     BuntStore.Get F b' k = BuntStore.Get F b k) /\
  (forall fuel min max b' err k,
     BuntStore.DeleteRange F fuel b min max = Some (b', err) ->
     BuntStore.Get F b' k = BuntStore.Get F b k).
Proof.
  split.
  - intros logs b' err k. rewrite StoreLogs_eval.
    destruct (buntdb.db_closed b) eqn:Hc; [now intros [= <- _]|].
    destruct (first_set_fault F logs); [now intros [= <- _]|].
    destruct (buntdb.commit_fault F); [now intros [= <- _]|].
    intros [= <- _]. rewrite !BuntStore_Get_eval, Hc.
    cbn [buntdb.db_closed buntdb.db_keys]. unfold buntdb.Get.
    rewrite store_all_lookup_other; [reflexivity|].
    intros e _ Heq. symmetry in Heq. now apply log_key_conf_key in Heq.
  - intros fuel min max b' err k. unfold BuntStore.DeleteRange, buntdb.Update.
    destruct (buntdb.db_closed b) eqn:Hc; [now intros [= <- _]|].
    destruct (BuntStore.DeleteRange_loop F fuel (buntdb.db_keys b) min max)
      as [[tx' err']|] eqn:Hloop; [|discriminate].
    cbn [mbind option_bind]. destruct err'; [now intros [= <- _]|].
    destruct (buntdb.commit_fault F); [now intros [= <- _]|].
    intros [= <- _]. rewrite !BuntStore_Get_eval, Hc.
    cbn [buntdb.db_closed buntdb.db_keys]. unfold buntdb.Get.
    now rewrite (DeleteRange_loop_conf F fuel k _ _ _ _ _ Hloop).
Qed.

(** ** What stringToUint64 returns on any string *)

Lemma parse_loop_cases (s : string) :
  forall n, 0 <= n <= maxUint64 ->
    match strconv.parse_loop s n with
    | (v, None) => 0 <= v <= maxUint64
    | (v, Some e) =>
        (e = strconv_ErrSyntax /\ v = 0) \/ (e = strconv_ErrRange /\ v = maxUint64)
    end.
Proof.
  induction s as [|c s IH]; intros n Hn; [exact Hn|].
  cbn [strconv.parse_loop].
  destruct ((48 <=? Z.of_N (N_of_ascii c)) && (Z.of_N (N_of_ascii c) <=? 57)) eqn:Hdigit;
    [|now left].
  destruct (strconv.cutoff <=? n); [now right|].
  destruct (_ || _) eqn:Hover; [now right|].
  apply IH. apply orb_false_elim in Hover as [_ Hmax].
  apply Z.ltb_ge in Hmax. split; [|exact Hmax].
  unfold wrap64, uint64_modulus. apply Z.mod_pos_bound. lia.
Qed.

(** X25. [stringToUint64] of the decimal snapshot returns a 64-bit value on
    every string, and hides the failures of the parse it drops: the parse
    fails with a syntax error or a range error only, and the value is 0 on a
    syntax error and [2^64-1] on a range error. *)
Theorem stringToUint64_cases (s : string) :
  is_uint64 (DecimalKeys.stringToUint64 s) /\
  (snd (strconv.ParseUint s) = Some strconv_ErrSyntax -> DecimalKeys.stringToUint64 s = 0) /\
  (snd (strconv.ParseUint s) = Some strconv_ErrRange ->
   DecimalKeys.stringToUint64 s = maxUint64) /\
  (snd (strconv.ParseUint s) = None \/
   snd (strconv.ParseUint s) = Some strconv_ErrSyntax \/
   snd (strconv.ParseUint s) = Some strconv_ErrRange).
Proof.
  unfold DecimalKeys.stringToUint64.
  assert (H : match strconv.ParseUint s with
              | (v, None) => 0 <= v <= maxUint64
              | (v, Some e) =>
                  (e = strconv_ErrSyntax /\ v = 0) \/
                  (e = strconv_ErrRange /\ v = maxUint64)
              end).
  { unfold strconv.ParseUint. destruct s as [|c s]; [now left|].
    apply parse_loop_cases. unfold maxUint64. lia. }
  destruct (strconv.ParseUint s) as [v [e|]]; cbn [fst snd].
  - destruct H as [[-> ->]|[-> ->]];
      (split; [unfold is_uint64, maxUint64, uint64_modulus; lia|]);
      (split; [done|]); (split; [done|]); auto.
  - split; [unfold is_uint64, maxUint64, uint64_modulus in *; lia|].
    split; [done|]. split; [done|]. auto.
Qed.
